(** * django-rq-scheduler: job records and their scheduler registrations

    A shallow embedding of [scheduler/models.py] and [scheduler/forms.py].
    A job record ([BaseJob] and its three concrete classes) carries the id
    of the rq-scheduler job that was enqueued for it; [save] and [delete]
    keep that registration in step with the record.

    Python methods that mutate [self], talk to the scheduler or write to
    the database are actions of a state-and-exception monad over the
    record, the world around it and the availability of the backend.  A
    raised exception keeps whatever had been mutated before it was raised,
    as in Python. *)

From Stdlib Require Import ZArith Lia.
From Stdlib Require Import Ascii.
From stdpp Require Import base option list gmap strings pretty.

(** ** Python values *)

(** Truthiness of an optional string ([if self.job_id:]): [None] and the
    empty string are false. *)
Definition truthy_str (o : option string) : bool :=
  match o with
  | None => false
  | Some s => negb (String.eqb s "")
  end.

(** Truthiness of an optional integer ([if self.timeout:]): [None] and [0]
    are false. *)
Definition truthy_int (o : option Z) : bool :=
  match o with
  | None => false
  | Some n => negb (n =? 0)%Z
  end.

(** An aware [datetime]: the instant in microseconds since the epoch and the
    UTC offset it is displayed in.  Comparison of aware datetimes compares
    instants. *)
Record datetime := { instant : Z; utcoffset : Z }.

Definition datetime_lt (a b : datetime) : bool := (instant a <? instant b)%Z.

(** [django.templatetags.tz.utc]: the same instant, displayed in UTC. *)
Definition utc (d : datetime) : datetime := {| instant := instant d; utcoffset := 0 |}.

(** ** Exceptions *)

Inductive Exn :=
| BackendUnavailable
| KeyError (key : string)
| ImportError (path : string)
| TypeError (msg : string)
| ValueError (msg : string)
| AttributeError (attr : string)
| AssertionError
| OverflowError
| IntegrityError (column : string)
| ValidationError (field : option string) (message : string).

Inductive Res (A : Type) :=
| Ok (a : A)
| Raise (e : Exn).
Arguments Ok {A} a.
Arguments Raise {A} e.

(** ** [datetime.timedelta] *)

Record timedelta := { td_days : Z; td_seconds : Z; td_microseconds : Z }.

(** [RepeatableJob.UNITS]. *)
Inductive Units := minutes | hours | days | weeks.

Definition MAX_DELTA_DAYS : Z := 999999999.

(** [timedelta] with keywords [weeks], [days], [hours], [minutes]: the
    arguments are normalised to days and seconds with
    [0 <= seconds < 86400]; a day count of magnitude above
    [MAX_DELTA_DAYS] raises [OverflowError]. *)
Definition timedelta_new (w d h m : Z) : Res timedelta :=
  let s := (m * 60 + h * 3600)%Z in
  let dd := (d + w * 7 + s / 86400)%Z in
  if ((- MAX_DELTA_DAYS <=? dd) && (dd <=? MAX_DELTA_DAYS))%Z
  then Ok {| td_days := dd; td_seconds := (s mod 86400)%Z; td_microseconds := 0 |}
  else Raise OverflowError.

(** [timedelta] called with the single keyword [unit] set to [n]. *)
Definition timedelta_kw (unit : Units) (n : Z) : Res timedelta :=
  match unit with
  | minutes => timedelta_new 0 0 0 n
  | hours => timedelta_new 0 0 n 0
  | days => timedelta_new 0 n 0 0
  | weeks => timedelta_new n 0 0 0
  end.

Definition total_microseconds (t : timedelta) : Z :=
  ((td_days t * 86400 + td_seconds t) * 1000000 + td_microseconds t)%Z.

(** [timedelta.total_seconds()] is [total_microseconds] divided by a
    million, as a float.  The durations built here have no microseconds
    and at most [MAX_DELTA_DAYS] days, so the quotient is an integer below
    [2^53] and the float is that integer (lemma
    [total_seconds_is_integer]). *)
Definition total_seconds (t : timedelta) : Z := (total_microseconds t / 1000000)%Z.

(** ** Job records *)

(** The fields of the three concrete classes. *)
Inductive JobClass :=
| ScheduledJob (scheduled_time : datetime)
| RepeatableJob (scheduled_time : datetime) (interval : Z)
    (interval_unit : Units) (repeat : option Z)
| CronJob (cron_string : string) (repeat : option Z).

(** [BaseJob]; [id] is the primary key, [None] until the first insert. *)
Record BaseJob := {
  id : option nat;
  name : string;
  callable : string;
  enabled : bool;
  queue : string;
  job_id : option string;
  timeout : option Z;
  cls : JobClass }.

Definition with_job_id (v : option string) (j : BaseJob) : BaseJob :=
  {| id := id j; name := name j; callable := callable j; enabled := enabled j;
     queue := queue j; job_id := v; timeout := timeout j; cls := cls j |}.

Definition with_id (v : option nat) (j : BaseJob) : BaseJob :=
  {| id := v; name := name j; callable := callable j; enabled := enabled j;
     queue := queue j; job_id := job_id j; timeout := timeout j; cls := cls j |}.

(** ** The names [callable_func] imports *)

(** [s.split('.')]: the pieces between the dots, empty pieces included;
    never an empty list. *)
Fixpoint split_dots (s : string) : list string :=
  match s with
  | EmptyString => [EmptyString]
  | String a s' =>
      if Ascii.eqb a "."%char
      then EmptyString :: split_dots s'
      else match split_dots s' with
           | piece :: pieces => String a piece :: pieces
           | [] => [String a EmptyString]
           end
  end.

(** ['.'.join(pieces)]. *)
Definition join_dots (pieces : list string) : string := String.concat "." pieces.

(** The first three lines of [callable_func]: the module name handed to
    [importlib.import_module] and the attribute name handed to [getattr]. *)
Definition import_names (callable : string) : string * string :=
  let path := split_dots callable in
  (join_dots (List.removelast path), List.last path EmptyString).

Fixpoint has_dot (s : string) : bool :=
  match s with
  | EmptyString => false
  | String a s' => Ascii.eqb a "."%char || has_dot s'
  end.

(** A module name that starts with a dot asks for a relative import. *)
Definition relative_name (module : string) : bool :=
  match module with
  | EmptyString => false
  | String a _ => Ascii.eqb a "."%char
  end.

(** ** The scheduler backend, the database and the import system *)

(** What an enqueue call hands to rq-scheduler; [kw_timeout] is the
    [timeout] keyword, [None] when the keyword is not passed. *)
Inductive Request :=
| EnqueueAt (scheduled_time : datetime) (func : string) (kw_timeout : option Z)
| Schedule (scheduled_time : datetime) (func : string) (interval : Z)
    (repeat : option Z) (kw_timeout : option Z)
| Cron (func : string) (cron_string : string) (repeat : option Z)
    (kw_timeout : option Z).

Definition request_timeout (r : Request) : option Z :=
  match r with
  | EnqueueAt _ _ t => t
  | Schedule _ _ _ _ t => t
  | Cron _ _ _ t => t
  end.

(** Calls that took effect, in order. *)
Inductive Event :=
| EvCancel (q : string) (h : string)
| EvEnqueue (q : string) (h : string) (r : Request)
| EvRan (q : string) (h : string)
| EvSave (row : BaseJob)
| EvDelete (row : BaseJob).

(** The id rq gives the [n]-th job it creates (a uuid in rq): never empty
    and never issued twice. *)
Definition new_job_id (n : nat) : string := "job-" +:+ pretty n.

(** - [schedulers]: for each queue of [settings.RQ_QUEUES], the jobs its
      scheduler holds, by job id;
    - [uuids]: how many job ids rq has issued;
    - [modules]: the modules that import, each with its attributes and
      whether the attribute can be called;
    - [table], [next_pk]: the rows of the model's table by primary key;
    - [log]: the calls that took effect so far. *)
Record World := {
  schedulers : gmap string (gmap string Request);
  uuids : nat;
  modules : gmap string (gmap string bool);
  table : gmap nat BaseJob;
  next_pk : nat;
  log : list Event }.

Definition with_schedulers (s : gmap string (gmap string Request)) (w : World) : World :=
  {| schedulers := s; uuids := uuids w;
     modules := modules w; table := table w; next_pk := next_pk w;
     log := log w |}.

Definition with_uuids (n : nat) (w : World) : World :=
  {| schedulers := schedulers w; uuids := n;
     modules := modules w; table := table w; next_pk := next_pk w;
     log := log w |}.

Definition with_table (t : gmap nat BaseJob) (n : nat) (w : World) : World :=
  {| schedulers := schedulers w; uuids := uuids w;
     modules := modules w; table := t; next_pk := n;
     log := log w |}.

Definition with_log (l : list Event) (w : World) : World :=
  {| schedulers := schedulers w; uuids := uuids w;
     modules := modules w; table := table w; next_pk := next_pk w;
     log := l |}.

(** What a dotted path leads to: [Some b] when its module name is not
    empty and not relative, the module imports and has the attribute, [b]
    telling whether the attribute can be called; [None] otherwise. *)
Definition resolve (ms : gmap string (gmap string bool)) (path : string) : option bool :=
  let names := import_names path in
  if String.eqb (fst names) EmptyString || relative_name (fst names) then None
  else match ms !! fst names with
       | None => None
       | Some attrs => attrs !! snd names
       end.

Record ImportTable := ImportTableOf { imported : gmap string (gmap string bool) }.

#[global] Instance import_table_lookup : Lookup string bool ImportTable :=
  fun path t => resolve (imported t) path.

(** The dotted paths of a world, looked up with [!!]. *)
Definition importable (w : World) : ImportTable := ImportTableOf (modules w).

(** What the import of a path that leads nowhere raises: [import_module]
    raises [ValueError] for the empty module name, [TypeError] for a
    relative name (there is no package to relate it to) and [ImportError]
    for a module it does not find; [getattr] raises [AttributeError]. *)
Definition import_failure (w : World) (path : string) : Exn :=
  let names := import_names path in
  if String.eqb (fst names) EmptyString then ValueError "Empty module name"
  else if relative_name (fst names) then TypeError (fst names)
  else match modules w !! fst names with
       | None => ImportError (fst names)
       | Some _ => AttributeError (snd names)
       end.

(** ** The monad *)

(** The state threaded through a method: the record [self], the world, and
    the fate of the coming backend calls ([true] for a call that raises
    [BackendUnavailable]; calls beyond the list succeed). *)
Record St := { self : BaseJob; world : World; outages : list bool }.

Definition M (A : Type) : Type := St -> Res A * St.

Definition ret {A} (a : A) : M A := fun st => (Ok a, st).

Definition raise {A} (e : Exn) : M A := fun st => (Raise e, st).

Definition bind {A B} (m : M A) (k : A -> M B) : M B :=
  fun st =>
    match m st with
    | (Ok a, st') => k a st'
    | (Raise e, st') => (Raise e, st')
    end.

Declare Scope py_scope.
Delimit Scope py_scope with py.
Notation "x <- m ;; k" := (bind m (fun x => k))
  (at level 100, m at next level, right associativity) : py_scope.
Notation "m ;; k" := (bind m (fun _ => k))
  (at level 100, right associativity) : py_scope.
Open Scope py_scope.

Definition get_self : M BaseJob := fun st => (Ok (self st), st).

Definition get_world : M World := fun st => (Ok (world st), st).

Definition modify_self (f : BaseJob -> BaseJob) : M unit :=
  fun st => (Ok tt, {| self := f (self st); world := world st; outages := outages st |}).

Definition modify_world (f : World -> World) : M unit :=
  fun st => (Ok tt, {| self := self st; world := f (world st); outages := outages st |}).

Definition emit (e : Event) : M unit := modify_world (fun w => with_log (log w ++ [e]) w).

(** ** Collaborators: django_rq, rq-scheduler, importlib, the ORM

    These are not code of the repository.  The scheduler follows the
    contract the methods rely on: membership test, a cancel that is
    idempotent, enqueue calls that return a job with a new id, and any call
    failing when the backend cannot be reached. *)

(** The jobs held by the scheduler of queue [q]. *)
Definition jobs_of (q : string) (w : World) : gmap string Request :=
  default ∅ (schedulers w !! q).

Definition set_jobs (q : string) (js : gmap string Request) (w : World) : World :=
  with_schedulers (<[q := js]> (schedulers w)) w.

(** Every call that reaches Redis consumes one entry of [outages]. *)
Definition backend_call : M unit :=
  fun st =>
    match outages st with
    | [] => (Ok tt, st)
    | down :: rest =>
        let st' := {| self := self st; world := world st; outages := rest |} in
        if down then (Raise BackendUnavailable, st') else (Ok tt, st')
    end.

(** [item in scheduler]: whether the job id is in the scheduler's set of
    scheduled jobs.  [None] is in no scheduler
    ([test_unschedule_not_scheduled] unschedules a record without a job id). *)
Definition scheduler_contains (q : string) (item : option string) : M bool :=
  backend_call ;;
  w <- get_world ;;
  ret (match item with
       | None => false
       | Some h => bool_decide (is_Some (jobs_of q w !! h))
       end).

(** [scheduler.cancel(job_id)]: removes the id from the scheduled set;
    removing an absent id is not an error. *)
Definition scheduler_cancel (q : string) (item : option string) : M unit :=
  backend_call ;;
  match item with
  | None => ret tt
  | Some h =>
      modify_world (fun w => set_jobs q (delete h (jobs_of q w)) w) ;;
      emit (EvCancel q h)
  end.

(** [scheduler.enqueue_at], [scheduler.schedule] and [scheduler.cron]: a job
    with a new id is created and put in the scheduled set; the call
    returns the job, of which the callers read [job.id]. *)
Definition scheduler_enqueue (q : string) (r : Request) : M string :=
  backend_call ;;
  w <- get_world ;;
  let h := new_job_id (uuids w) in
  modify_world (fun w => with_uuids (S (uuids w)) (set_jobs q (<[h := r]> (jobs_of q w)) w)) ;;
  emit (EvEnqueue q h r) ;;
  ret h.

Definition name_taken (j : BaseJob) (t : gmap nat BaseJob) : bool :=
  existsb (fun kr => String.eqb (name (snd kr)) (name j)
                     && negb (bool_decide (id j = Some (fst kr))))
          (map_to_list t).

(** [Model.save]: insert or update the row of [self]; the [unique]
    constraint on [name] raises [IntegrityError].  The timestamps of
    [TimeStampedModel] are left out. *)
Definition super_save : M unit :=
  j <- get_self ;;
  w <- get_world ;;
  if name_taken j (table w) then raise (IntegrityError "name")
  else
    let pk := match id j with Some k => k | None => next_pk w end in
    let row := with_id (Some pk) j in
    modify_self (with_id (Some pk)) ;;
    modify_world (with_table (<[pk := row]> (table w)) (Nat.max (S pk) (next_pk w))) ;;
    emit (EvSave row).

(** [Model.delete]: remove the row of [self] and forget its primary key. *)
Definition super_delete : M unit :=
  j <- get_self ;;
  w <- get_world ;;
  match id j with
  | None => raise AssertionError
  | Some pk =>
      modify_world (with_table (delete pk (table w)) (next_pk w)) ;;
      modify_self (with_id None) ;;
      emit (EvDelete j)
  end.

(** ** [scheduler/models.py] *)

(** [callable_func]: split the path, import the module, get the attribute,
    insist that it is callable.  The function found is named by its dotted
    path. *)
Definition callable_func : M string :=
  j <- get_self ;;
  w <- get_world ;;
  let path := split_dots (callable j) in
  let module := join_dots (List.removelast path) in
  let attr := List.last path EmptyString in
  if String.eqb module EmptyString then raise (ValueError "Empty module name")
  else if relative_name module then raise (TypeError module)
  else match modules w !! module with
       | None => raise (ImportError module)
       | Some attrs =>
           match attrs !! attr with
           | None => raise (AttributeError attr)
           | Some false => raise (TypeError (callable j))
           | Some true => ret (callable j)
           end
       end.

(** [scheduler]: [django_rq.get_scheduler(self.queue)]; the scheduler is
    named by its queue. *)
Definition scheduler : M string :=
  j <- get_self ;;
  w <- get_world ;;
  match schedulers w !! queue j with
  | None => raise (KeyError (queue j))
  | Some _ => ret (queue j)
  end.

(** [is_scheduled]: [self.job_id in self.scheduler()]. *)
Definition is_scheduled : M bool :=
  j <- get_self ;;
  q <- scheduler ;;
  scheduler_contains q (job_id j).

(** [is_schedulable]. *)
Definition is_schedulable : M bool :=
  j <- get_self ;;
  if truthy_str (job_id j) then ret false
  else ret (enabled j).

(** [schedule_time_utc]; a [CronJob] has no [scheduled_time]. *)
Definition schedule_time_utc : M datetime :=
  j <- get_self ;;
  match cls j with
  | ScheduledJob t => ret (utc t)
  | RepeatableJob t _ _ _ => ret (utc t)
  | CronJob _ _ => raise (AttributeError "scheduled_time")
  end.

(** The [timeout] entry of [kwargs]: present only for a truthy timeout. *)
Definition timeout_kwarg (j : BaseJob) : option Z :=
  if truthy_int (timeout j) then timeout j else None.

(** [BaseJob.schedule], the one [ScheduledJob] inherits. *)
Definition BaseJob_schedule : M bool :=
  ok <- is_schedulable ;;
  if negb ok then ret false
  else
    j <- get_self ;;
    let kw := timeout_kwarg j in
    q <- scheduler ;;
    t <- schedule_time_utc ;;
    f <- callable_func ;;
    h <- scheduler_enqueue q (EnqueueAt t f kw) ;;
    modify_self (with_job_id (Some h)) ;;
    ret true.

(** [RepeatableJob.interval_seconds], on the two fields it reads. *)
Definition interval_seconds (interval : Z) (interval_unit : Units) : Res Z :=
  match timedelta_kw interval_unit interval with
  | Ok t => Ok (total_seconds t)
  | Raise e => Raise e
  end.

Definition lift {A} (r : Res A) : M A := fun st => (r, st).

(** [RepeatableJob.schedule]: the [kwargs] literal is evaluated before the
    scheduler is looked up. *)
Definition RepeatableJob_schedule : M bool :=
  ok <- is_schedulable ;;
  if negb ok then ret false
  else
    j <- get_self ;;
    match cls j with
    | RepeatableJob _ n u rep =>
        t <- schedule_time_utc ;;
        f <- callable_func ;;
        secs <- lift (interval_seconds n u) ;;
        let kw := timeout_kwarg j in
        q <- scheduler ;;
        h <- scheduler_enqueue q (Schedule t f secs rep kw) ;;
        modify_self (with_job_id (Some h)) ;;
        ret true
    | _ => raise (AttributeError "interval")
    end.

(** [CronJob.schedule]. *)
Definition CronJob_schedule : M bool :=
  ok <- is_schedulable ;;
  if negb ok then ret false
  else
    j <- get_self ;;
    match cls j with
    | CronJob c rep =>
        f <- callable_func ;;
        let kw := timeout_kwarg j in
        q <- scheduler ;;
        h <- scheduler_enqueue q (Cron f c rep kw) ;;
        modify_self (with_job_id (Some h)) ;;
        ret true
    | _ => raise (AttributeError "cron_string")
    end.

(** [self.schedule()]: the method of the record's class. *)
Definition schedule : M bool :=
  j <- get_self ;;
  match cls j with
  | ScheduledJob _ => BaseJob_schedule
  | RepeatableJob _ _ _ _ => RepeatableJob_schedule
  | CronJob _ _ => CronJob_schedule
  end.

(** [unschedule]. *)
Definition unschedule : M bool :=
  s <- is_scheduled ;;
  (if s then
     q <- scheduler ;;
     j <- get_self ;;
     scheduler_cancel q (job_id j)
   else ret tt) ;;
  modify_self (with_job_id None) ;;
  ret true.

(** [save]. *)
Definition save : M unit :=
  unschedule ;;
  j <- get_self ;;
  (if enabled j then schedule else ret false) ;;
  super_save.

(** [delete]. *)
Definition delete_job : M unit :=
  unschedule ;;
  super_delete.

(** ** [scheduler/forms.py] *)

Definition future_message : string := "Запланированное время должно быть в будущем".

(** [JobAdminForm.clean_scheduled_time], with the value of [now()]. *)
Definition clean_scheduled_time (now data : datetime) : Res datetime :=
  if datetime_lt data now then Raise (ValidationError None future_message)
  else Ok data.

(** What the form does with a [clean_<field>] method: a [ValidationError]
    it raises is recorded under that field. *)
Definition field_errors {A} (field : string) (r : Res A) : gmap string (list string) :=
  match r with
  | Raise (ValidationError _ m) => {[ field := [m] ]}
  | _ => ∅
  end.

Definition JobAdminForm_errors (now data : datetime) : gmap string (list string) :=
  field_errors "scheduled_time" (clean_scheduled_time now data).

(** ** Definitions used to state the properties *)

(** The conversion as the specification words it: minutes are 60 seconds,
    hours 3600, days 86400 and weeks 604800. *)
Definition spec_interval (magnitude : Z) (unit : Units) : Z :=
  match unit with
  | minutes => magnitude * 60
  | hours => magnitude * 3600
  | days => magnitude * 86400
  | weeks => magnitude * 604800
  end%Z.

(** [d + timedelta(days=n)]. *)
Definition days_after (n : Z) (d : datetime) : datetime :=
  {| instant := instant d + n * 86400 * 1000000; utcoffset := utcoffset d |}.

(** Whether the next backend call goes through. *)
Definition up (st : St) : bool :=
  match outages st with
  | true :: _ => false
  | _ => true
  end.

(** Whether the record's queue has a scheduler. *)
Definition configured (st : St) : bool :=
  bool_decide (is_Some (schedulers (world st) !! queue (self st))).

(** Whether the scheduler of the record's queue holds the record's job id. *)
Definition live (st : St) : bool :=
  match job_id (self st) with
  | None => false
  | Some h => bool_decide (is_Some (jobs_of (queue (self st)) (world st) !! h))
  end.

(** The world after a cancel, and after an enqueue, that took effect. *)
Definition cancelled (q h : string) (w : World) : World :=
  with_log (log w ++ [EvCancel q h]) (set_jobs q (delete h (jobs_of q w)) w).

Definition enqueued (q : string) (r : Request) (w : World) : World :=
  with_log (log w ++ [EvEnqueue q (new_job_id (uuids w)) r])
    (with_uuids (S (uuids w))
       (set_jobs q (<[new_job_id (uuids w) := r]> (jobs_of q w)) w)).

(** The world after [Model.save] wrote [row] under [pk]. *)
Definition written (pk : nat) (row : BaseJob) (w : World) : World :=
  with_log (log w ++ [EvSave row])
    (with_table (<[pk := row]> (table w)) (Nat.max (S pk) (next_pk w)) w).

(** The backend calls [save] is expected to make, from the state it starts
    in: the cancel of the unregister step, and the enqueue of the register
    step. *)
Definition unregister_events (st : St) : list Event :=
  match job_id (self st) with
  | Some h => if live st then [EvCancel (queue (self st)) h] else []
  | None => []
  end.

Definition register_events (st : St) (req : Request) : list Event :=
  if enabled (self st)
  then [EvEnqueue (queue (self st)) (new_job_id (uuids (world st))) req]
  else [].

(** The backend answers and says that it holds [h] for the record's queue. *)
Definition reports_live (st : St) (h : string) : Prop :=
  configured st = true /\ up st = true /\
  is_Some (jobs_of (queue (self st)) (world st) !! h).

(** [self] with another value of [enabled]. *)
Definition with_enabled (b : bool) (st : St) : St :=
  {| self := {| id := id (self st); name := name (self st);
                callable := callable (self st); enabled := b;
                queue := queue (self st); job_id := job_id (self st);
                timeout := timeout (self st); cls := cls (self st) |};
     world := world st; outages := outages st |}.

(** ** A record and a world to run the methods on *)

Definition tomorrow : datetime := {| instant := 1500000086400000000; utcoffset := 180 |}.

Definition sample_job (on : bool) (h : option string) (t : option Z) : BaseJob :=
  {| id := None; name := "Addition 0"; callable := "scheduler.tests.test_job";
     enabled := on; queue := "default"; job_id := h; timeout := t;
     cls := ScheduledJob tomorrow |}.

Definition sample_request : Request :=
  EnqueueAt (utc tomorrow) "scheduler.tests.test_job" None.

Definition sample_world (js : gmap string Request) : World :=
  {| schedulers := {[ "default" := js ]}; uuids := 1;
     modules := {[ "scheduler.tests" := {[ "test_job" := true ]} ]};
     table := ∅; next_pk := 1; log := [] |}.

Definition sample_state (on : bool) (h : option string) (t : option Z)
    (js : gmap string Request) (o : list bool) : St :=
  {| self := sample_job on h t; world := sample_world js; outages := o |}.

(** The sample record, registered as ["job-0"], which the scheduler holds. *)
Definition registered_state (on : bool) (o : list bool) : St :=
  sample_state on (Some "job-0") None {[ "job-0" := sample_request ]} o.

(** The sample record holding a job id the scheduler no longer has. *)
Definition stale_state : St := sample_state true (Some "job-0") None ∅ [].

(** The sample record with a timeout of zero, and with an empty job id. *)
Definition zero_timeout_state : St := sample_state true None (Some 0%Z) ∅ [].

Definition empty_job_id_state : St := sample_state true (Some "") None ∅ [].

(** ** The life of a record: edits, saves and reloads *)

(** What happens to a record object between its creation and now: its
    editable fields are assigned, it is saved (a [save] that raises leaves
    the object as the exception found it), it is read again from its row
    of the table, and, on the backend's side, the scheduler of some queue
    runs a job for the last time and drops it. *)
Inductive Step :=
| SetName (n : string)
| SetCallable (c : string)
| SetEnabled (b : bool)
| SetQueue (q : string)
| SetTimeout (t : option Z)
| SetClass (k : JobClass)
| Save
| Reload
| JobRan (q : string) (h : string).

Definition edit (f : BaseJob -> BaseJob) (st : St) : St :=
  {| self := f (self st); world := world st; outages := outages st |}.

Definition set_field (s : Step) (j : BaseJob) : BaseJob :=
  {| id := id j;
     name := match s with SetName n => n | _ => name j end;
     callable := match s with SetCallable c => c | _ => callable j end;
     enabled := match s with SetEnabled b => b | _ => enabled j end;
     queue := match s with SetQueue q => q | _ => queue j end;
     job_id := job_id j;
     timeout := match s with SetTimeout t => t | _ => timeout j end;
     cls := match s with SetClass k => k | _ => cls j end |}.

(** The scheduler of [q] dropping [h]. *)
Definition job_ran (q h : string) (w : World) : World :=
  with_log (log w ++ [EvRan q h])
    (with_schedulers (alter (delete h) q (schedulers w)) w).

(** The row the table has for the record, if it has one. *)
Definition stored (st : St) : option BaseJob :=
  match id (self st) with
  | Some pk => table (world st) !! pk
  | None => None
  end.

(** The object takes the fields of its row ([refresh_from_db], or the
    admin fetching the record for the next request); without a row it is
    left as it is. *)
Definition reload (st : St) : St :=
  match stored st with
  | Some row => {| self := row; world := world st; outages := outages st |}
  | None => st
  end.

Definition step (s : Step) (st : St) : St :=
  match s with
  | Save => snd (save st)
  | Reload => reload st
  | JobRan q h =>
      {| self := self st; world := job_ran q h (world st); outages := outages st |}
  | _ => edit (set_field s) st
  end.

Definition run (p : list Step) (st : St) : St :=
  fold_left (fun st s => step s st) p st.

(** The row of the record, if there is one, has the object's queue and,
    when the scheduler holds the object's job id, that job id.  It fails
    after a [save] that enqueued a job and could not write the row. *)
Definition in_step (st : St) : bool :=
  match stored st with
  | None => true
  | Some row =>
      String.eqb (queue row) (queue (self st))
      && (negb (live st) || bool_decide (job_id row = job_id (self st)))
  end.

(** Over the steps [p], run from [st], the queue is not assigned and the
    object is reloaded only when its row is [in_step]. *)
Fixpoint steady (p : list Step) (st : St) : bool :=
  match p with
  | [] => true
  | s :: p =>
      match s with
      | SetQueue _ => false
      | Reload => in_step st
      | _ => true
      end && steady p (step s st)
  end.

(** The events logged since [st], in a later state [st']. *)
Definition events_since (st st' : St) : list Event :=
  drop (length (log (world st))) (log (world st')).

(** The schedulers after an event, and after a list of events. *)
Definition jobs_in (q : string) (s : gmap string (gmap string Request)) : gmap string Request :=
  default ∅ (s !! q).

Definition apply_event (e : Event) (s : gmap string (gmap string Request))
    : gmap string (gmap string Request) :=
  match e with
  | EvCancel q h => <[q := delete h (jobs_in q s)]> s
  | EvEnqueue q h r => <[q := <[h := r]> (jobs_in q s)]> s
  | EvRan q h => alter (delete h) q s
  | EvSave _ | EvDelete _ => s
  end.

Definition replay (evs : list Event) (s : gmap string (gmap string Request))
    : gmap string (gmap string Request) :=
  fold_left (fun s e => apply_event e s) evs s.

(** A registration: a queue and the id of a job enqueued with its
    scheduler. *)
Definition Registration : Type := string * string.

(** The registrations made by a list of events. *)
Definition enqueued_by (e : Event) : gset Registration :=
  match e with
  | EvEnqueue q h _ => {[ (q, h) ]}
  | _ => ∅
  end.

Definition registrations (evs : list Event) : gset Registration :=
  ⋃ (enqueued_by <$> evs).

(** The registration a record holds: its job id, with the scheduler of its
    queue. *)
Definition held (j : BaseJob) : gset Registration :=
  match job_id j with
  | Some h => {[ (queue j, h) ]}
  | None => ∅
  end.

(** The scheduler of the registration's queue holds its job. *)
Definition holds (s : gmap string (gmap string Request)) (r : Registration) : Prop :=
  is_Some (jobs_in (fst r) s !! snd r).

#[global] Instance holds_dec (s : gmap string (gmap string Request)) (r : Registration) :
  Decision (holds s r) := is_Some_dec _.

(** The registrations of the record of [st] that are live once the events
    [evs] have happened: the ones made for it (the one it held in [st],
    and the ones enqueued by [evs]) whose job the scheduler of their queue,
    whichever queue that is, then holds. *)
Definition live_registrations (st : St) (evs : list Event) : gset Registration :=
  filter (holds (replay evs (schedulers (world st))))
    (held (self st) ∪ registrations evs).

(** Of the registrations [O] of a record, the schedulers [s] hold at most
    the ones in [H]. *)
Definition only_held (O H : gset Registration)
    (s : gmap string (gmap string Request)) : Prop :=
  filter (holds s) O ⊆ H.

(** The events [evs], happening from the schedulers [s] to a record with
    the registrations [O], never enqueue while one of them is held, and
    never leave two of them held. *)
Fixpoint safe (O : gset Registration) (s : gmap string (gmap string Request))
    (evs : list Event) : Prop :=
  match evs with
  | [] => True
  | e :: evs =>
      match e with
      | EvEnqueue _ _ _ => filter (holds s) O = ∅
      | _ => True
      end /\
      size (filter (holds (apply_event e s)) (O ∪ enqueued_by e)) <= 1 /\
      safe (O ∪ enqueued_by e) (apply_event e s) evs
  end.

(** From [st] to [st'] the events [evs] were logged, they account for the
    schedulers of [st'], they are [safe], and the record, still on queue
    [q], holds whatever registration of its own is held by a scheduler. *)
Definition moves (q : string) (O : gset Registration) (st : St) (evs : list Event) (st' : St)
    : Prop :=
  log (world st') = log (world st) ++ evs /\
  schedulers (world st') = replay evs (schedulers (world st)) /\
  queue (self st') = q /\
  safe O (schedulers (world st)) evs /\
  only_held (O ∪ registrations evs) (held (self st')) (schedulers (world st')).

(** A life of the sample record: created enabled and saved while the
    backend is down for the enqueue, saved again, disabled and saved,
    read again, enabled with a timeout and saved, run by the scheduler,
    read again, saved. *)
Definition sample_life : list Step :=
  [Save; Save; SetEnabled false; Save; Reload; SetEnabled true; SetTimeout (Some 60%Z);
   Save; JobRan "default" "job-2"; Reload; Save].

Definition newborn_state : St := sample_state true None None ∅ [false; true].

(** The sample record where [RQ_QUEUES] has a second queue, and a life in
    which its queue is changed between two saves. *)
Definition two_queues_state : St :=
  {| self := sample_job true None None;
     world := with_schedulers {[ "default" := ∅; "low" := ∅ ]} (sample_world ∅);
     outages := [] |}.

Definition queue_change_life : list Step := [Save; SetQueue "low"; Save].

(** The sample record where the table has a row of another record, and a
    life in which it takes that record's name, so that the write of the
    second [save] fails after its enqueue, and is then read again. *)
Definition other_row : BaseJob :=
  {| id := Some 7%nat; name := "Addition 1"; callable := "scheduler.tests.test_job";
     enabled := false; queue := "default"; job_id := None; timeout := None;
     cls := ScheduledJob tomorrow |}.

Definition crowded_state : St :=
  {| self := sample_job true None None;
     world := with_table {[ 7%nat := other_row ]} 8 (sample_world ∅);
     outages := [] |}.

Definition lost_write_life : list Step :=
  [Save; SetName "Addition 1"; Save; Reload; Save].

(** ** Validation: [clean] *)

Definition not_importable_message : string := "Неимпортируемый объект".

Definition wrong_queue_message (queue_keys : list string) : string :=
  "Неправильная очередь, выберите из: " +:+ String.concat ", " queue_keys.

(** [settings.RQ_QUEUES.keys()]: the queues that have a scheduler.  The
    order of the names is the dictionary's, which is not kept here. *)
Definition queue_keys (w : World) : list string :=
  fst <$> map_to_list (schedulers w).

(** [clean_callable]: whatever [callable_func] raises (the [except] names no
    class) becomes a [ValidationError] on the field [callable]. *)
Definition clean_callable : M unit :=
  fun st =>
    match callable_func st with
    | (Ok _, st') => (Ok tt, st')
    | (Raise _, st') =>
        (Raise (ValidationError (Some "callable") not_importable_message), st')
    end.

(** [clean_queue]. *)
Definition clean_queue : M unit :=
  j <- get_self ;;
  w <- get_world ;;
  if bool_decide (queue j ∈ queue_keys w) then ret tt
  else raise (ValidationError (Some "queue") (wrong_queue_message (queue_keys w))).

(** [BaseJob.clean]. *)
Definition BaseJob_clean : M unit :=
  clean_callable ;;
  clean_queue.

(** What [croniter.croniter(cron_string)] does with a string: it builds the
    iterator, or raises a [ValueError] with a message, or raises something
    else. *)
Inductive Croniter :=
| CronParsed
| CronValueError (message : string)
| CronOtherError (e : Exn).

(** [CronJob.clean_cron_string]: only a [ValueError] is caught. *)
Definition clean_cron_string (croniter : string -> Croniter) : M unit :=
  j <- get_self ;;
  match cls j with
  | CronJob c _ =>
      match croniter c with
      | CronParsed => ret tt
      | CronValueError m => raise (ValidationError (Some "cron_string") m)
      | CronOtherError e => raise e
      end
  | _ => raise (AttributeError "cron_string")
  end.

(** [CronJob.clean]. *)
Definition CronJob_clean (croniter : string -> Croniter) : M unit :=
  BaseJob_clean ;;
  clean_cron_string croniter.

(** [self.clean()]: the method of the record's class. *)
Definition clean (croniter : string -> Croniter) : M unit :=
  j <- get_self ;;
  match cls j with
  | CronJob _ _ => CronJob_clean croniter
  | _ => BaseJob_clean
  end.

(** ** Definitions used to state the further properties *)

(** What each class hands to the scheduler when it registers a record. *)
Definition request_of (j : BaseJob) : Request :=
  match cls j with
  | ScheduledJob t =>
      EnqueueAt (utc t) (callable j) (timeout_kwarg j)
  | RepeatableJob t n u r =>
      Schedule (utc t) (callable j) (spec_interval n u) r (timeout_kwarg j)
  | CronJob c r =>
      Cron (callable j) c r (timeout_kwarg j)
  end.

(** The interval of a [RepeatableJob] is beyond what [timedelta] holds. *)
Definition interval_overflows (j : BaseJob) : Prop :=
  match cls j with
  | RepeatableJob _ n u _ => (MAX_DELTA_DAYS < Z.abs (spec_interval n u / 86400))%Z
  | _ => False
  end.

(** The exceptions of the backend and of the settings. *)
Definition backend_error (e : Exn) : Prop :=
  match e with
  | BackendUnavailable | KeyError _ => True
  | _ => False
  end.

(** A [croniter] that knows one expression, for running [clean]. *)
Definition every_minute_only (s : string) : Croniter :=
  if String.eqb s "* * * * *" then CronParsed
  else CronValueError "Exactly 5 or 6 columns has to be specified for iterator expression.".


Definition sample_repeatable_job (h : option string) (n : Z) (u : Units) : BaseJob :=
  {| id := None; name := "Repeat 0"; callable := "scheduler.tests.test_job";
     enabled := true; queue := "default"; job_id := h; timeout := None;
     cls := RepeatableJob tomorrow n u None |}.

Definition state_of (j : BaseJob) (js : gmap string Request) (o : list bool) : St :=
  {| self := j; world := sample_world js; outages := o |}.


(** * Properties *)

(** ** Interval conversion *)

Lemma spec_interval_days (n : Z) (u : Units) :
  (match u with
   | minutes => (0 + 0 * 7 + (n * 60 + 0 * 3600) / 86400)
   | hours => (0 + 0 * 7 + (0 * 60 + n * 3600) / 86400)
   | days => (n + 0 * 7 + (0 * 60 + 0 * 3600) / 86400)
   | weeks => (0 + n * 7 + (0 * 60 + 0 * 3600) / 86400)
   end = spec_interval n u / 86400)%Z.
Proof.
  destruct u; cbn [spec_interval];
    rewrite ?Z.mul_0_l, ?Z.add_0_l, ?Z.add_0_r; try reflexivity.
  - rewrite Z.div_mul by lia. change (0 / 86400)%Z with 0%Z. lia.
  - replace (n * 604800)%Z with (n * 7 * 86400)%Z by lia.
    rewrite Z.div_mul by lia. change (0 / 86400)%Z with 0%Z. lia.
Qed.

Lemma spec_interval_seconds (n : Z) (u : Units) :
  (match u with
   | minutes => (n * 60 + 0 * 3600) mod 86400
   | hours => (0 * 60 + n * 3600) mod 86400
   | days | weeks => (0 * 60 + 0 * 3600) mod 86400
   end = spec_interval n u mod 86400)%Z.
Proof.
  destruct u; cbn [spec_interval];
    rewrite ?Z.mul_0_l, ?Z.add_0_l, ?Z.add_0_r; try reflexivity.
  - rewrite Z.mod_mul by lia. reflexivity.
  - replace (n * 604800)%Z with (n * 7 * 86400)%Z by lia.
    rewrite Z.mod_mul by lia. reflexivity.
Qed.

(** [timedelta] checks the whole days of the interval against its range. *)
Lemma timedelta_kw_range (n : Z) (u : Units) :
  timedelta_kw u n =
  if ((- MAX_DELTA_DAYS <=? spec_interval n u / 86400)
      && (spec_interval n u / 86400 <=? MAX_DELTA_DAYS))%Z
  then Ok {| td_days := spec_interval n u / 86400;
             td_seconds := spec_interval n u mod 86400;
             td_microseconds := 0 |}
  else Raise OverflowError.
Proof.
  rewrite <- spec_interval_days, <- spec_interval_seconds.
  destruct u; reflexivity.
Qed.

(** The float [total_seconds] returns is an integer below [2^53]: the
    division by a million is exact and the float holds the quotient. *)
Lemma total_seconds_is_integer (n : Z) (u : Units) (t : timedelta) :
  timedelta_kw u n = Ok t ->
  total_microseconds t = (total_seconds t * 1000000)%Z /\
  (Z.abs (total_seconds t) < 2 ^ 53)%Z.
Proof.
  rewrite timedelta_kw_range.
  destruct (_ && _)%bool eqn:C; [|discriminate].
  intros [= <-]. apply andb_true_iff in C as [C1 C2].
  apply Z.leb_le in C1, C2.
  unfold total_seconds, total_microseconds; cbn [td_days td_seconds td_microseconds].
  rewrite Z.add_0_r, Z.div_mul by lia. split; [reflexivity|].
  pose proof (Z.mod_pos_bound (spec_interval n u) 86400 ltac:(lia)).
  unfold MAX_DELTA_DAYS in *. change (2 ^ 53)%Z with 9007199254740992%Z. lia.
Qed.

(** Within the range of [timedelta] the conversion is the product. *)
Lemma interval_seconds_in_range (n : Z) (u : Units) :
  (- MAX_DELTA_DAYS <= spec_interval n u / 86400 <= MAX_DELTA_DAYS)%Z ->
  interval_seconds n u = Ok (spec_interval n u).
Proof.
  intros [H1 H2]. unfold interval_seconds. rewrite timedelta_kw_range.
  apply Z.leb_le in H1, H2. rewrite H1, H2. cbn [andb]. f_equal.
  unfold total_seconds, total_microseconds; cbn [td_days td_seconds td_microseconds].
  rewrite Z.add_0_r, Z.div_mul by lia.
  pose proof (Z.div_mod (spec_interval n u) 86400 ltac:(lia)). lia.
Qed.

(** C8, as amended: whenever the interval is within the range of
    [timedelta] (at most 999999999 whole days), [interval_seconds] is the
    exact number of seconds: the magnitude times 60 for minutes, 3600 for
    hours, 86400 for days and 604800 for weeks. *)
Theorem interval_seconds_exact (n : Z) (u : Units) :
  (- MAX_DELTA_DAYS <= spec_interval n u / 86400 <= MAX_DELTA_DAYS)%Z ->
  interval_seconds n u =
    Ok match u with
       | minutes => n * 60
       | hours => n * 3600
       | days => n * 86400
       | weeks => n * 604800
       end%Z.
Proof.
  intros H. rewrite (interval_seconds_in_range n u H). destruct u; reflexivity.
Qed.

(** The four conversions the specification lists. *)
Lemma interval_seconds_exact_witness :
  interval_seconds 2 weeks = Ok 1209600%Z /\
  interval_seconds 2 days = Ok 172800%Z /\
  interval_seconds 2 hours = Ok 7200%Z /\
  interval_seconds 15 minutes = Ok 900%Z.
Proof.
  split; [|split; [|split]].
  - apply (interval_seconds_exact 2 weeks). vm_compute. split; discriminate.
  - apply (interval_seconds_exact 2 days). vm_compute. split; discriminate.
  - apply (interval_seconds_exact 2 hours). vm_compute. split; discriminate.
  - apply (interval_seconds_exact 15 minutes). vm_compute. split; discriminate.
Defined.

(** [test_interval_seconds_hours] expects 54000.0 for two hours; the method
    returns 7200. *)
Example interval_seconds_two_hours :
  interval_seconds 2 hours = Ok 7200%Z /\ interval_seconds 2 hours <> Ok 54000%Z.
Proof. split; [reflexivity | discriminate]. Qed.

(** C8, counterexample: an interval of 1000000000 days is a valid
    [PositiveIntegerField] value, and [interval_seconds] raises
    [OverflowError] instead of returning 86400000000000. *)
Lemma interval_seconds_overflow :
  interval_seconds 1000000000 days = Raise OverflowError /\
  interval_seconds 1000000000 days <> Ok (spec_interval 1000000000 days).
Proof. split; [reflexivity | discriminate]. Qed.

(** Beyond the range the conversion raises. *)
Lemma interval_seconds_out_of_range (n : Z) (u : Units) :
  (MAX_DELTA_DAYS < Z.abs (spec_interval n u / 86400))%Z ->
  interval_seconds n u = Raise OverflowError.
Proof.
  intros H. unfold interval_seconds. rewrite timedelta_kw_range.
  destruct (_ && _)%bool eqn:C; [|reflexivity].
  apply andb_true_iff in C as [C1 C2]. apply Z.leb_le in C1, C2. lia.
Qed.

(** Within a [PositiveIntegerField], minutes and hours always convert;
    days convert up to 999999999 and weeks up to 142857142. *)
Lemma interval_seconds_field_range (n : Z) (u : Units) :
  (0 <= n <= 2147483647)%Z ->
  (n <= match u with
        | days => 999999999 | weeks => 142857142 | _ => 2147483647 end)%Z ->
  interval_seconds n u = Ok (spec_interval n u).
Proof.
  intros Hn Hu. apply interval_seconds_in_range. unfold MAX_DELTA_DAYS.
  destruct u; cbn [spec_interval]; split;
    try (apply Z.div_le_lower_bound; lia);
    try (apply Z.div_le_upper_bound; lia);
    try (transitivity 0%Z; [lia | apply Z.div_pos; lia]).
Qed.

(** ** Validation of the scheduled time *)

(** What the guard [data < now()] of [clean_scheduled_time] decides: a
    time strictly before the validation instant is rejected with the
    message recorded under the [scheduled_time] field, every other time is
    returned unchanged, and one day in the future passes. *)
Lemma clean_scheduled_time_rejects_past (now data : datetime) :
  (JobAdminForm_errors now data = {[ "scheduled_time" := [future_message] ]}
   <-> (instant data < instant now)%Z) /\
  (clean_scheduled_time now data = Ok data /\ JobAdminForm_errors now data = ∅
   <-> (instant now <= instant data)%Z) /\
  clean_scheduled_time now (days_after 1 now) = Ok (days_after 1 now).
Proof.
  unfold JobAdminForm_errors, clean_scheduled_time, datetime_lt.
  split; [|split].
  - destruct (Z.ltb_spec (instant data) (instant now)); cbn [field_errors].
    + split; [lia | reflexivity].
    + split; [|lia]. intros H'. exfalso.
      apply (f_equal (fun m : gmap string (list string) => m !! "scheduled_time")) in H'.
      rewrite lookup_empty, lookup_singleton_eq in H'. discriminate.
  - destruct (Z.ltb_spec (instant data) (instant now)); cbn [field_errors].
    + split; [intros [[=] _] | lia].
    + split; [lia | split; reflexivity].
  - destruct (Z.ltb_spec (instant (days_after 1 now)) (instant now)) as [H|H];
      [cbn in H; lia | reflexivity].
Qed.

(** C7: the claim asks that a scheduled time exactly equal to the
    validation instant be rejected, and the message of the form says that
    the time must be in the future; the code, run on a time equal to
    [now()], returns the time and records no error. *)
Theorem clean_scheduled_time_accepts_now :
  let t := {| instant := 1500000000000000; utcoffset := 0 |} in
  clean_scheduled_time t t = Ok t /\ JobAdminForm_errors t t = ∅.
Proof. split; reflexivity. Qed.

(** ** Job ids *)

(** The ids rq issues are never empty and never repeat. *)
Lemma new_job_id_truthy (n : nat) : truthy_str (Some (new_job_id n)) = true.
Proof. reflexivity. Qed.

Lemma new_job_id_inj (m n : nat) : new_job_id m = new_job_id n -> m = n.
Proof.
  unfold new_job_id. intros H. apply (inj (String.append "job-")) in H.
  apply (inj pretty) in H. exact H.
Qed.

(** ** Running the methods *)

Ltac unfold_monad :=
  unfold bind, ret, raise, lift, get_self, get_world, modify_self,
    modify_world, emit in *;
  cbn [self world outages fst snd] in *.

Lemma backend_call_cases (st : St) :
  self (snd (backend_call st)) = self st /\
  world (snd (backend_call st)) = world st /\
  fst (backend_call st) = if up st then Ok tt else Raise BackendUnavailable.
Proof.
  unfold backend_call, up. destruct (outages st) as [|[] ?]; cbn; auto.
Qed.

Lemma scheduler_cases (st : St) :
  scheduler st =
  if configured st then (Ok (queue (self st)), st)
  else (Raise (KeyError (queue (self st))), st).
Proof.
  unfold scheduler, configured. unfold_monad.
  destruct (schedulers (world st) !! queue (self st)) eqn:E.
  - rewrite bool_decide_eq_true_2 by eauto. reflexivity.
  - rewrite bool_decide_eq_false_2; [reflexivity|]. intros [? ?]; discriminate.
Qed.

Lemma is_scheduled_cases (st : St) :
  self (snd (is_scheduled st)) = self st /\
  world (snd (is_scheduled st)) = world st /\
  fst (is_scheduled st) =
    if configured st then
      if up st then Ok (live st) else Raise BackendUnavailable
    else Raise (KeyError (queue (self st))).
Proof.
  unfold is_scheduled. unfold_monad. rewrite scheduler_cases.
  destruct (configured st); [|auto].
  unfold scheduler_contains, live. unfold_monad.
  destruct (backend_call_cases st) as (Hs & Hw & Hr).
  destruct (backend_call st) as [[[]|e] st1]; cbn in *; subst;
    destruct (up st); try discriminate; rewrite ?Hw; try injection Hr as ->; auto.
Qed.

Lemma backend_call_run (st : St) :
  exists o, backend_call st =
    (if up st then Ok tt else Raise BackendUnavailable,
     {| self := self st; world := world st; outages := o |}).
Proof.
  unfold backend_call, up. destruct st as [j w [|[] o]]; cbn; eauto.
Qed.

(** What [unschedule] does, case by case: it raises before anything is
    changed, or clears the job id without a cancel because the scheduler
    does not hold it, or cancels the held id and clears it. *)
Lemma unschedule_cases (st : St) (r : Res bool) (st' : St) :
  unschedule st = (r, st') ->
  (exists e, r = Raise e /\ self st' = self st /\ world st' = world st) \/
  (r = Ok true /\ configured st = true /\ live st = false /\
   self st' = with_job_id None (self st) /\ world st' = world st) \/
  (exists h, r = Ok true /\ configured st = true /\ live st = true /\
   job_id (self st) = Some h /\
   self st' = with_job_id None (self st) /\
   world st' = cancelled (queue (self st)) h (world st)).
Proof.
  unfold unschedule. unfold bind at 1.
  destruct (is_scheduled_cases st) as (Hs & Hw & Hr).
  destruct (is_scheduled st) as [[s|e] st1]; cbn [fst snd] in *.
  2:{ intros [= <- <-]. left. eauto. }
  destruct (configured st) eqn:Hc; [|discriminate].
  destruct (up st); [|discriminate]. injection Hr as ->.
  assert (Hc1 : configured st1 = true) by (unfold configured; rewrite Hs, Hw; exact Hc).
  destruct (live st) eqn:Hl.
  - unfold live in Hl. destruct (job_id (self st)) as [h|] eqn:Hj; [|discriminate].
    unfold_monad. rewrite scheduler_cases, Hc1.
    unfold scheduler_cancel. unfold_monad.
    destruct (backend_call_run st1) as [o ->]. rewrite Hs, Hj, Hw.
    destruct (up st1); cbn.
    + intros [= <- <-]. right. right. exists h. cbn. auto 10.
    + intros [= <- <-]. left. eexists. cbn. auto.
  - unfold_monad. intros [= <- <-]. right. left. cbn. rewrite Hs, Hw. auto.
Qed.

Lemma scheduler_enqueue_run (q : string) (r : Request) (st : St) :
  exists o, scheduler_enqueue q r st =
    if up st
    then (Ok (new_job_id (uuids (world st))),
          {| self := self st; world := enqueued q r (world st); outages := o |})
    else (Raise BackendUnavailable,
          {| self := self st; world := world st; outages := o |}).
Proof.
  unfold scheduler_enqueue. unfold_monad.
  destruct (backend_call_run st) as [o ->]. exists o.
  destruct (up st); reflexivity.
Qed.

Lemma importable_lookup (w : World) (path : string) :
  importable w !! path = resolve (modules w) path.
Proof. reflexivity. Qed.

Lemma callable_func_result (st : St) :
  callable_func st =
  (match importable (world st) !! callable (self st) with
   | Some true => Ok (callable (self st))
   | Some false => Raise (TypeError (callable (self st)))
   | None => Raise (import_failure (world st) (callable (self st)))
   end, st).
Proof.
  rewrite importable_lookup.
  unfold callable_func, import_failure, resolve, import_names.
  unfold_monad. cbn [fst snd].
  destruct (String.eqb _ EmptyString); [reflexivity|].
  destruct (relative_name _); [reflexivity|]. cbn [orb].
  destruct (modules (world st) !! _) as [attrs|]; [|reflexivity].
  destruct (attrs !! _) as [[]|]; reflexivity.
Qed.

Lemma callable_func_run (st : St) :
  exists r, callable_func st = (r, st) /\
    (r = Ok (callable (self st)) \/ exists e, r = Raise e).
Proof.
  rewrite callable_func_result.
  destruct (importable (world st) !! callable (self st)) as [[]|]; eauto.
Qed.

Lemma is_schedulable_run (st : St) :
  is_schedulable st =
  (Ok (negb (truthy_str (job_id (self st))) && enabled (self st)), st).
Proof.
  unfold is_schedulable. unfold_monad.
  destruct (truthy_str (job_id (self st))); reflexivity.
Qed.

(** What [schedule] does, case by case, for the three classes alike: it
    returns [False] and leaves everything as it was; or it raises before
    anything is changed; or it enqueues one request, which carries the
    timeout keyword of [timeout_kwarg], and stores the new job id. *)
Lemma schedule_cases (st : St) (r : Res bool) (st' : St) :
  schedule st = (r, st') ->
  (r = Ok false /\ st' = st /\
   (truthy_str (job_id (self st)) = true \/ enabled (self st) = false)) \/
  (exists e, r = Raise e /\ self st' = self st /\ world st' = world st /\
   truthy_str (job_id (self st)) = false /\ enabled (self st) = true) \/
  (exists req, r = Ok true /\
   truthy_str (job_id (self st)) = false /\ enabled (self st) = true /\
   configured st = true /\
   self st' = with_job_id (Some (new_job_id (uuids (world st)))) (self st) /\
   world st' = enqueued (queue (self st)) req (world st) /\
   request_timeout req = timeout_kwarg (self st)).
Proof.
  unfold schedule. unfold bind at 1. unfold get_self at 1.
  destruct (cls (self st)) eqn:Hcls;
    unfold BaseJob_schedule, RepeatableJob_schedule, CronJob_schedule;
    unfold bind at 1; rewrite is_schedulable_run;
    destruct (truthy_str (job_id (self st))) eqn:Ht; cbn [negb andb];
    try (unfold ret; intros [= <- <-]; left; auto; fail);
    destruct (enabled (self st)) eqn:He; cbn [negb];
    try (unfold ret; intros [= <- <-]; left; auto; fail);
    unfold schedule_time_utc; unfold_monad; rewrite ?Hcls.
  - rewrite scheduler_cases. destruct (configured st) eqn:Hc.
    2:{ intros [= <- <-]; right; left; eauto 10. }
    rewrite Hcls.
    destruct (callable_func_run st) as (rf & -> & [-> | [e ->]]).
    2:{ intros [= <- <-]; right; left; eauto 10. }
    destruct (scheduler_enqueue_run (queue (self st))
                (EnqueueAt (utc scheduled_time) (callable (self st))
                   (timeout_kwarg (self st))) st) as [o ->].
    destruct (up st); cbn; intros [= <- <-]; right; [right | left]; eauto 12.
  - destruct (callable_func_run st) as (rf & -> & [-> | [e ->]]).
    2:{ intros [= <- <-]; right; left; eauto 10. }
    destruct (interval_seconds interval interval_unit) as [secs|e].
    2:{ intros [= <- <-]; right; left; eauto 10. }
    rewrite scheduler_cases. destruct (configured st) eqn:Hc.
    2:{ intros [= <- <-]; right; left; eauto 10. }
    destruct (scheduler_enqueue_run (queue (self st))
                (Schedule (utc scheduled_time) (callable (self st)) secs repeat
                   (timeout_kwarg (self st))) st) as [o ->].
    destruct (up st); cbn; intros [= <- <-]; right; [right | left]; eauto 12.
  - destruct (callable_func_run st) as (rf & -> & [-> | [e ->]]).
    2:{ intros [= <- <-]; right; left; eauto 10. }
    rewrite scheduler_cases. destruct (configured st) eqn:Hc.
    2:{ intros [= <- <-]; right; left; eauto 10. }
    destruct (scheduler_enqueue_run (queue (self st))
                (Cron (callable (self st)) cron_string repeat
                   (timeout_kwarg (self st))) st) as [o ->].
    destruct (up st); cbn; intros [= <- <-]; right; [right | left]; eauto 12.
Qed.

Lemma super_save_cases (st : St) (r : Res unit) (st' : St) :
  super_save st = (r, st') ->
  (r = Raise (IntegrityError "name") /\ st' = st) \/
  (exists pk, r = Ok tt /\
   self st' = with_id (Some pk) (self st) /\
   world st' = written pk (with_id (Some pk) (self st)) (world st)).
Proof.
  unfold super_save. unfold_monad.
  destruct (name_taken (self st) (table (world st))).
  - intros [= <- <-]. auto.
  - intros [= <- <-]. right. eexists. cbn. eauto.
Qed.

Lemma live_false_events (st : St) : live st = false -> unregister_events st = [].
Proof. unfold unregister_events. intros ->. destruct (job_id (self st)); reflexivity. Qed.

Lemma live_true_events (st : St) (h : string) :
  live st = true -> job_id (self st) = Some h ->
  unregister_events st = [EvCancel (queue (self st)) h].
Proof. unfold unregister_events. intros -> ->. reflexivity. Qed.

(** The log after [unschedule]: the cancel, when one was made. *)
Lemma unschedule_log (st : St) (b : bool) (st' : St) :
  unschedule st = (Ok b, st') ->
  b = true /\ self st' = with_job_id None (self st) /\
  log (world st') = log (world st) ++ unregister_events st /\
  uuids (world st') = uuids (world st) /\
  table (world st') = table (world st) /\
  jobs_of (queue (self st)) (world st') =
    match job_id (self st) with
    | Some h => delete h (jobs_of (queue (self st)) (world st))
    | None => jobs_of (queue (self st)) (world st)
    end.
Proof.
  intros H. destruct (unschedule_cases _ _ _ H)
    as [(e & [=] & _) | [([= ->] & Hc & Hl & Hs & Hw) | (h & [= ->] & Hc & Hl & Hj & Hs & Hw)]].
  - rewrite Hw, (live_false_events _ Hl), app_nil_r. repeat split; auto.
    unfold live in Hl. destruct (job_id (self st)) as [h|]; [|reflexivity].
    apply bool_decide_eq_false in Hl.
    symmetry. apply delete_id. destruct (jobs_of _ _ !! h) eqn:E; [|reflexivity].
    exfalso. apply Hl. eauto.
  - rewrite Hw, (live_true_events _ h Hl Hj), Hj. repeat split; auto.
    unfold cancelled, jobs_of, set_jobs. cbn. rewrite lookup_insert_eq. reflexivity.
Qed.

Lemma save_unfold (st : St) :
  save st =
  match unschedule st with
  | (Ok _, st1) =>
      match (if enabled (self st1) then schedule st1 else (Ok false, st1)) with
      | (Ok _, st2) => super_save st2
      | (Raise e, st2) => (Raise e, st2)
      end
  | (Raise e, st1) => (Raise e, st1)
  end.
Proof.
  unfold save. unfold_monad.
  destruct (unschedule st) as [[b|e] st1]; [|reflexivity].
  destruct (enabled (self st1)); reflexivity.
Qed.

(** After the unregister step of [save], [schedule] cannot decline an
    enabled record: the job id has just been cleared. *)
Lemma schedule_after_unschedule (st st1 st2 : St) (b b' : bool) :
  unschedule st = (Ok b, st1) ->
  enabled (self st) = true ->
  schedule st1 = (Ok b', st2) ->
  exists req,
    b' = true /\
    self st2 = with_job_id (Some (new_job_id (uuids (world st)))) (self st) /\
    world st2 = enqueued (queue (self st)) req (world st1) /\
    request_timeout req = timeout_kwarg (self st).
Proof.
  intros Hu He Hs. destruct (unschedule_log _ _ _ Hu) as (-> & Hj & _ & Hn & _).
  destruct (schedule_cases _ _ _ Hs)
    as [(_ & _ & [Ht | Hd]) | [(e & [=] & _) | (req & [= ->] & _ & _ & _ & Hs2 & Hw2 & Hto)]].
  - rewrite Hj in Ht. discriminate.
  - rewrite Hj in Hd. cbn in Hd. congruence.
  - exists req. rewrite Hs2, Hw2, Hto, Hj, Hn. cbn. auto.
Qed.

(** What a [save] that completes has done. *)
Lemma save_ok_cases (st st' : St) :
  save st = (Ok tt, st') ->
  exists (req : Request) (pk : nat),
    log (world st') =
      log (world st) ++ unregister_events st ++ register_events st req
        ++ [EvSave (self st')] /\
    job_id (self st') =
      (if enabled (self st) then Some (new_job_id (uuids (world st))) else None) /\
    (enabled (self st) = true ->
     jobs_of (queue (self st)) (world st') !! new_job_id (uuids (world st)) = Some req) /\
    id (self st') = Some pk /\
    table (world st') !! pk = Some (self st') /\
    enabled (self st') = enabled (self st).
Proof.
  rewrite save_unfold.
  destruct (unschedule st) as [[b|e] st1] eqn:Hu; [|discriminate].
  destruct (unschedule_log _ _ _ Hu) as (-> & Hj & Hl & Hn & Ht & Hjobs).
  assert (He1 : enabled (self st1) = enabled (self st)) by (rewrite Hj; reflexivity).
  rewrite He1. unfold register_events.
  destruct (enabled (self st)) eqn:He.
  - destruct (schedule st1) as [[b'|e] st2] eqn:Hs; [|discriminate].
    destruct (schedule_after_unschedule _ _ _ _ _ Hu He Hs) as (req & -> & Hs2 & Hw2 & _).
    intros Hsv. destruct (super_save_cases _ _ _ Hsv) as [([=] & _) | (pk & _ & Hs3 & Hw3)].
    exists req, pk. rewrite Hw3, Hs3, Hs2, Hw2. cbn.
    rewrite Hl, Hn, <- !app_assoc.
    split; [reflexivity|]. split; [reflexivity|].
    split; [|split; [reflexivity|split; [|assumption]]].
    + intros _. unfold jobs_of. cbn.
      rewrite lookup_insert_eq. cbn. rewrite Hn. apply lookup_insert_eq.
    + apply lookup_insert_eq.
  - intros Hsv. destruct (super_save_cases _ _ _ Hsv) as [([=] & _) | (pk & _ & Hs3 & Hw3)].
    exists (Cron "" "" None None), pk. rewrite Hw3, Hs3, Hj. cbn.
    rewrite Hl, <- app_assoc.
    split; [reflexivity|]. split; [reflexivity|]. split; [discriminate|].
    split; [reflexivity|]. split; [apply lookup_insert_eq | assumption].
Qed.

(** What a [save] that raises has done: nothing was written, and the calls
    made are the unregister step's, followed at most by the enqueue. *)
Lemma save_raise_cases (st st' : St) (e : Exn) :
  save st = (Raise e, st') ->
  table (world st') = table (world st) /\
  exists evs, log (world st') = log (world st) ++ evs /\
    forall row, ~ In (EvSave row) evs.
Proof.
  rewrite save_unfold.
  destruct (unschedule st) as [[b|e1] st1] eqn:Hu.
  - destruct (unschedule_log _ _ _ Hu) as (-> & Hj & Hl & Hn & Ht & Hjobs).
    assert (Hun : forall row, ~ In (EvSave row) (unregister_events st)).
    { intros row. unfold unregister_events.
      destruct (job_id (self st)); [destruct (live st)|];
        cbn; intuition discriminate. }
    destruct (enabled (self st1)).
    + destruct (schedule st1) as [[b'|e2] st2] eqn:Hs.
      * destruct (schedule_cases _ _ _ Hs)
          as [(_ & -> & _) | [(e3 & [=] & _) | (req & _ & _ & _ & _ & Hs2 & Hw2 & _)]].
        -- intros Hsv.
           destruct (super_save_cases _ _ _ Hsv) as [(_ & ->) | (pk & [=] & _)].
           split; [assumption|]. eauto.
        -- intros Hsv.
           destruct (super_save_cases _ _ _ Hsv) as [(_ & ->) | (pk & [=] & _)].
           rewrite Hw2. cbn. split; [assumption|].
           eexists. rewrite Hl, <- app_assoc. split; [reflexivity|].
           intros row. rewrite in_app_iff. specialize (Hun row).
           cbn. intuition discriminate.
      * intros [= <- <-].
        destruct (schedule_cases _ _ _ Hs)
          as [([=] & _) | [(e3 & _ & _ & Hw2 & _) | (req & [=] & _)]].
        rewrite Hw2. split; [assumption|]. eauto.
    + intros Hsv.
      destruct (super_save_cases _ _ _ Hsv) as [(_ & ->) | (pk & [=] & _)].
      split; [assumption|]. eauto.
  - intros [= <- <-].
    destruct (unschedule_cases _ _ _ Hu)
      as [(e3 & _ & _ & Hw) | [([=] & _) | (h & [=] & _)]].
    rewrite Hw. split; [reflexivity|]. exists []. rewrite app_nil_r.
    split; [reflexivity|]. intros row [].
Qed.

(** ** [save] completes *)

Lemma configured_lookup (st : St) :
  configured st = true -> exists js, schedulers (world st) !! queue (self st) = Some js.
Proof. unfold configured. intros [js E]%bool_decide_eq_true. eauto. Qed.

Lemma unschedule_completes (st : St) :
  configured st = true -> outages st = [] ->
  exists st', unschedule st = (Ok true, st') /\
    outages st' = [] /\ configured st' = true /\
    self st' = with_job_id None (self st) /\
    importable (world st') = importable (world st) /\
    table (world st') = table (world st).
Proof.
  intros Hc Ho. destruct (configured_lookup _ Hc) as [js E].
  destruct st as [[i n c en q h t k] w o]. cbn in *. subst o.
  unfold unschedule, is_scheduled, scheduler, scheduler_contains, scheduler_cancel,
    backend_call.
  unfold_monad. cbn. rewrite E. cbn.
  destruct h as [h|]; [destruct (bool_decide _)|]; cbn; rewrite ?E; cbn;
    eexists; (split; [reflexivity|]); cbn; repeat split; auto;
    unfold configured; cbn; apply bool_decide_eq_true_2;
    rewrite ?lookup_insert_eq; eauto.
Qed.



(** ** The claims about [save], [schedule], [unschedule], [is_scheduled] *)

(** C1: a [save] that completes has made exactly these calls, in this
    order: the cancel of the unregister step (if the scheduler held the old
    job id), then, only for an enabled record, one enqueue, whose new job id
    is stored in the record and held by the scheduler, and last the write
    of the record, carrying that job id, to its table.  A disabled record
    is written with no job id. *)
Theorem save_sequence (st st' : St) :
  save st = (Ok tt, st') ->
  exists (req : Request) (pk : nat),
    log (world st') =
      log (world st) ++ unregister_events st ++ register_events st req
        ++ [EvSave (self st')] /\
    job_id (self st') =
      (if enabled (self st) then Some (new_job_id (uuids (world st))) else None) /\
    (enabled (self st) = true ->
     jobs_of (queue (self st)) (world st') !! new_job_id (uuids (world st)) = Some req) /\
    id (self st') = Some pk /\
    table (world st') !! pk = Some (self st').
Proof.
  intros H. destruct (save_ok_cases _ _ H) as (req & pk & H1 & H2 & H3 & H4 & H5 & _).
  exists req, pk. auto.
Qed.

Lemma save_sequence_witness :
  exists (req : Request) (pk : nat),
    log (world (snd (save (registered_state true [])))) =
      log (world (registered_state true []))
        ++ unregister_events (registered_state true [])
        ++ register_events (registered_state true []) req
        ++ [EvSave (self (snd (save (registered_state true []))))] /\
    job_id (self (snd (save (registered_state true [])))) =
      (if enabled (self (registered_state true []))
       then Some (new_job_id (uuids (world (registered_state true []))))
       else None) /\
    (enabled (self (registered_state true [])) = true ->
     jobs_of (queue (self (registered_state true [])))
       (world (snd (save (registered_state true []))))
       !! new_job_id (uuids (world (registered_state true []))) = Some req) /\
    id (self (snd (save (registered_state true [])))) = Some pk /\
    table (world (snd (save (registered_state true [])))) !! pk =
      Some (self (snd (save (registered_state true [])))).
Proof.
  apply (save_sequence (registered_state true [])
           (snd (save (registered_state true [])))).
  vm_compute. reflexivity.
Defined.

(** The calls of that run, spelled out. *)
Example save_sequence_run :
  log (world (snd (save (registered_state true [])))) =
  [EvCancel "default" "job-0";
   EvEnqueue "default" "job-1" sample_request;
   EvSave {| id := Some 1; name := "Addition 0";
             callable := "scheduler.tests.test_job"; enabled := true;
             queue := "default"; job_id := Some "job-1"; timeout := None;
             cls := ScheduledJob tomorrow |}].
Proof. vm_compute. reflexivity. Qed.

(** C3: after a [save] that completes, a record that is not enabled has no
    job id. *)
Theorem save_disabled_unregistered (st st' : St) :
  save st = (Ok tt, st') ->
  enabled (self st') = false ->
  job_id (self st') = None.
Proof.
  intros H Hd. destruct (save_ok_cases _ _ H) as (req & pk & _ & Hj & _ & _ & _ & He).
  rewrite Hj, <- He, Hd. reflexivity.
Qed.

Lemma save_disabled_unregistered_witness :
  job_id (self (snd (save (registered_state false [])))) = None.
Proof.
  apply (save_disabled_unregistered (registered_state false [])).
  - vm_compute. reflexivity.
  - vm_compute. reflexivity.
Defined.

(** C4: when, in the [save] of an enabled record, the unregister step goes
    through and the register step raises, [save] raises that error, the
    record is left with no job id, and nothing is written to the table:
    the only call that took effect is the cancel. *)
Theorem save_enqueue_failure (st st1 st2 : St) (b : bool) (e : Exn) :
  enabled (self st) = true ->
  unschedule st = (Ok b, st1) ->
  schedule st1 = (Raise e, st2) ->
  save st = (Raise e, st2) /\
  job_id (self st2) = None /\
  table (world st2) = table (world st) /\
  log (world st2) = log (world st) ++ unregister_events st.
Proof.
  intros He Hu Hs. rewrite save_unfold, Hu.
  destruct (unschedule_log _ _ _ Hu) as (-> & Hj & Hl & Hn & Ht & Hjobs).
  assert (He1 : enabled (self st1) = true) by (rewrite Hj; exact He).
  rewrite He1, Hs. split; [reflexivity|].
  destruct (schedule_cases _ _ _ Hs)
    as [([=] & _) | [(e3 & _ & Hs2 & Hw2 & _) | (req & [=] & _)]].
  rewrite Hs2, Hw2, Hj. auto.
Qed.

Lemma save_enqueue_failure_witness :
  save (registered_state true [false; false; true]) =
    (Raise BackendUnavailable,
     snd (schedule (snd (unschedule (registered_state true [false; false; true]))))) /\
  job_id (self (snd (schedule (snd (unschedule
            (registered_state true [false; false; true])))))) = None /\
  table (world (snd (schedule (snd (unschedule
            (registered_state true [false; false; true])))))) =
    table (world (registered_state true [false; false; true])) /\
  log (world (snd (schedule (snd (unschedule
            (registered_state true [false; false; true])))))) =
    log (world (registered_state true [false; false; true]))
      ++ unregister_events (registered_state true [false; false; true]).
Proof.
  apply (save_enqueue_failure
           (registered_state true [false; false; true])
           (snd (unschedule (registered_state true [false; false; true])))
           _ true BackendUnavailable).
  - reflexivity.
  - vm_compute. reflexivity.
  - vm_compute. reflexivity.
Defined.

(** The calls of that run, spelled out: the cancel, and no write. *)
Example save_enqueue_failure_run :
  log (world (snd (save (registered_state true [false; false; true])))) =
    [EvCancel "default" "job-0"] /\
  job_id (self (snd (save (registered_state true [false; false; true])))) = None /\
  table (world (snd (save (registered_state true [false; false; true])))) = ∅ /\
  jobs_of "default" (world (snd (save (registered_state true [false; false; true])))) = ∅.
Proof. vm_compute. auto. Qed.

(** [unschedule] does not look at [enabled]. *)
Lemma unschedule_with_enabled (b : bool) (st : St) :
  unschedule (with_enabled b st) =
  (fst (unschedule st), with_enabled b (snd (unschedule st))).
Proof.
  destruct st as [[i n c en q h t k] w o].
  unfold unschedule, is_scheduled, scheduler, scheduler_contains,
    scheduler_cancel, backend_call, with_enabled.
  unfold_monad. cbn.
  destruct (schedulers w !! q) eqn:E; [|reflexivity].
  destruct o as [|[] [|[] o]]; destruct h as [h|]; cbn; try reflexivity;
    destruct (bool_decide _); cbn; rewrite ?E; reflexivity.
Qed.

(** C5, as amended: the unregister step calls [cancel] with the job id
    exactly when the scheduler holds that id ([is_scheduled]); whenever it
    completes, it has cleared the job id of the record, with or without a
    cancel, and the scheduler no longer holds the id.  None of this depends
    on [enabled]. *)
Theorem unschedule_cancels_live (st st' : St) (r : bool) :
  unschedule st = (Ok r, st') ->
  job_id (self st') = None /\
  (live st = true ->
   exists h, job_id (self st) = Some h /\
     log (world st') = log (world st) ++ [EvCancel (queue (self st)) h]) /\
  (live st = false -> log (world st') = log (world st)) /\
  (forall h, job_id (self st) = Some h ->
     jobs_of (queue (self st)) (world st') !! h = None) /\
  (forall b, unschedule (with_enabled b st) = (Ok r, with_enabled b st')).
Proof.
  intros H. destruct (unschedule_log _ _ _ H) as (-> & Hj & Hl & _ & _ & Hjobs).
  split; [rewrite Hj; reflexivity|]. split; [|split; [|split]].
  - intros Hlive. unfold live in Hlive.
    destruct (job_id (self st)) as [h|] eqn:E; [|discriminate].
    exists h. split; [reflexivity|]. rewrite Hl. unfold unregister_events, live.
    rewrite E, Hlive. reflexivity.
  - intros Hlive. rewrite Hl, (live_false_events _ Hlive). apply app_nil_r.
  - intros h E. rewrite Hjobs, E. apply lookup_delete_eq.
  - intros b. rewrite unschedule_with_enabled, H. reflexivity.
Qed.

Lemma unschedule_cancels_live_witness :
  job_id (self (snd (unschedule (registered_state false [])))) = None /\
  (live (registered_state false []) = true ->
   exists h, job_id (self (registered_state false [])) = Some h /\
     log (world (snd (unschedule (registered_state false [])))) =
       log (world (registered_state false []))
         ++ [EvCancel (queue (self (registered_state false []))) h]) /\
  (live (registered_state false []) = false ->
   log (world (snd (unschedule (registered_state false [])))) =
     log (world (registered_state false []))) /\
  (forall h, job_id (self (registered_state false [])) = Some h ->
     jobs_of (queue (self (registered_state false [])))
       (world (snd (unschedule (registered_state false [])))) !! h = None) /\
  (forall b, unschedule (with_enabled b (registered_state false [])) =
     (Ok true, with_enabled b (snd (unschedule (registered_state false []))))).
Proof.
  apply (unschedule_cancels_live (registered_state false [])).
  vm_compute. reflexivity.
Defined.

(** C5, counterexample: the record holds the job id ["job-0"], which the
    scheduler does not hold (the job has run); [unschedule] completes and
    clears the id without calling [cancel]. *)
Lemma unschedule_stale_no_cancel :
  job_id (self stale_state) = Some "job-0" /\
  fst (unschedule stale_state) = Ok true /\
  log (world (snd (unschedule stale_state))) = [] /\
  job_id (self (snd (unschedule stale_state))) = None.
Proof. vm_compute. auto. Qed.

(** C6: [is_scheduled] returns [True] exactly when the record has a job id
    and the backend reports that it holds it; whenever the backend answers
    it returns a boolean; and it changes neither the record nor the
    world. *)
Theorem is_scheduled_iff_live (st : St) :
  (fst (is_scheduled st) = Ok true <->
   exists h, job_id (self st) = Some h /\ reports_live st h) /\
  (configured st = true /\ up st = true <-> exists b, fst (is_scheduled st) = Ok b) /\
  self (snd (is_scheduled st)) = self st /\
  world (snd (is_scheduled st)) = world st.
Proof.
  destruct (is_scheduled_cases st) as (Hs & Hw & Hr).
  split; [|split; [|split; assumption]]; rewrite Hr; unfold reports_live, live.
  - destruct (configured st), (up st);
      try (split; [discriminate | intros (h & _ & ? & ? & _); discriminate]).
    destruct (job_id (self st)) as [h|].
    + split.
      * intros [= E]. apply bool_decide_eq_true in E. eauto.
      * intros (h' & [= <-] & _ & _ & E). rewrite bool_decide_eq_true_2; auto.
    + split; [discriminate | intros (h & [=] & _)].
  - destruct (configured st), (up st);
      try (split; [intros [? ?]; discriminate | intros [b [=]]]).
    split; eauto.
Qed.

(** C9, as amended: a [schedule] that registers the record makes one
    enqueue call, whatever the class of the record; the call carries the
    record's timeout when that timeout is set and not zero, and carries no
    timeout when it is unset or zero. *)
Theorem schedule_forwards_timeout (st st' : St) :
  schedule st = (Ok true, st') ->
  exists req,
    log (world st') =
      log (world st) ++ [EvEnqueue (queue (self st)) (new_job_id (uuids (world st))) req] /\
    request_timeout req =
      match timeout (self st) with
      | Some t => if (t =? 0)%Z then None else Some t
      | None => None
      end.
Proof.
  intros H. destruct (schedule_cases _ _ _ H)
    as [([=] & _) | [(e & [=] & _) | (req & _ & _ & _ & _ & _ & Hw & Ht)]].
  exists req. rewrite Hw, Ht. split; [reflexivity|].
  unfold timeout_kwarg, truthy_int.
  destruct (timeout (self st)) as [t|]; [|reflexivity].
  destruct (t =? 0)%Z; reflexivity.
Qed.

Lemma schedule_forwards_timeout_witness :
  exists req,
    log (world (snd (schedule (sample_state true None (Some 30%Z) ∅ [])))) =
      log (world (sample_state true None (Some 30%Z) ∅ []))
        ++ [EvEnqueue (queue (self (sample_state true None (Some 30%Z) ∅ [])))
              (new_job_id (uuids (world (sample_state true None (Some 30%Z) ∅ [])))) req] /\
    request_timeout req =
      match timeout (self (sample_state true None (Some 30%Z) ∅ [])) with
      | Some t => if (t =? 0)%Z then None else Some t
      | None => None
      end.
Proof.
  apply (schedule_forwards_timeout (sample_state true None (Some 30%Z) ∅ [])).
  vm_compute. reflexivity.
Defined.

(** C9, counterexample: the record has a timeout, which is zero; the
    enqueue call carries no timeout. *)
Lemma schedule_drops_zero_timeout :
  timeout (self zero_timeout_state) = Some 0%Z /\
  fst (schedule zero_timeout_state) = Ok true /\
  log (world (snd (schedule zero_timeout_state))) =
    [EvEnqueue "default" "job-1"
       (EnqueueAt (utc tomorrow) "scheduler.tests.test_job" None)].
Proof. vm_compute. auto. Qed.

(** C10, as amended: [schedule] on a record whose job id is set and not
    empty, or which is not enabled, returns [False] and changes nothing:
    no backend call is made and the record is as it was. *)
Theorem schedule_declines (st : St) :
  truthy_str (job_id (self st)) = true \/ enabled (self st) = false ->
  schedule st = (Ok false, st).
Proof.
  intros H. unfold schedule. unfold bind at 1. unfold get_self at 1.
  assert (E : negb (truthy_str (job_id (self st))) && enabled (self st) = false)
    by (destruct H as [-> | ->]; [reflexivity | apply andb_false_r]).
  destruct (cls (self st));
    unfold BaseJob_schedule, RepeatableJob_schedule, CronJob_schedule;
    unfold bind at 1; rewrite is_schedulable_run, E; reflexivity.
Qed.

Lemma schedule_declines_witness :
  schedule (registered_state true []) = (Ok false, registered_state true []) /\
  schedule (sample_state false None None ∅ []) =
    (Ok false, sample_state false None None ∅ []).
Proof.
  split.
  - apply (schedule_declines (registered_state true [])). left. reflexivity.
  - apply (schedule_declines (sample_state false None None ∅ [])). right. reflexivity.
Defined.

(** C10, counterexample: the job id is the empty string, which is not
    [None]; [schedule] on the enabled record enqueues and replaces it. *)
Lemma schedule_empty_job_id :
  job_id (self empty_job_id_state) = Some "" /\
  fst (schedule empty_job_id_state) = Ok true /\
  job_id (self (snd (schedule empty_job_id_state))) = Some "job-1" /\
  log (world (snd (schedule empty_job_id_state))) =
    [EvEnqueue "default" "job-1" sample_request].
Proof. vm_compute. auto. Qed.
(** ** One live registration *)

Lemma registrations_nil : registrations [] = ∅.
Proof. reflexivity. Qed.

Lemma registrations_cons (e : Event) (evs : list Event) :
  registrations (e :: evs) = enqueued_by e ∪ registrations evs.
Proof. reflexivity. Qed.

Lemma registrations_app (e1 e2 : list Event) :
  registrations (e1 ++ e2) = registrations e1 ∪ registrations e2.
Proof.
  unfold registrations. rewrite fmap_app. apply union_list_app_L.
Qed.

Lemma replay_cons (e : Event) (evs : list Event) (s : gmap string (gmap string Request)) :
  replay (e :: evs) s = replay evs (apply_event e s).
Proof. reflexivity. Qed.

Lemma replay_app (e1 e2 : list Event) (s : gmap string (gmap string Request)) :
  replay (e1 ++ e2) s = replay e2 (replay e1 s).
Proof. apply fold_left_app. Qed.

Lemma safe_app (e1 e2 : list Event) (O : gset Registration)
    (s : gmap string (gmap string Request)) :
  safe O s e1 -> safe (O ∪ registrations e1) (replay e1 s) e2 ->
  safe O s (e1 ++ e2).
Proof.
  revert O s. induction e1 as [|e e1 IH]; intros O s H1 H2; cbn [app].
  - rewrite registrations_nil, union_empty_r_L in H2. exact H2.
  - destruct H1 as (Ha & Hb & Hc). cbn [safe]. split; [exact Ha|]. split; [exact Hb|].
    apply IH; [exact Hc|].
    rewrite registrations_cons, (assoc_L (∪)) in H2. exact H2.
Qed.

Lemma size_held (j : BaseJob) : size (held j) <= 1.
Proof.
  unfold held. destruct (job_id j).
  - rewrite size_singleton. lia.
  - rewrite size_empty. lia.
Qed.

Lemma only_held_size (O : gset Registration) (j : BaseJob)
    (s : gmap string (gmap string Request)) :
  only_held O (held j) s -> size (filter (holds s) O) <= 1.
Proof.
  intros H. etransitivity; [apply subseteq_size, H | apply size_held].
Qed.

(** At every point of a [safe] list of events at most one registration is
    held, and none when an enqueue happens. *)
Lemma safe_prefix (evs : list Event) (O : gset Registration)
    (s : gmap string (gmap string Request)) :
  size (filter (holds s) O) <= 1 ->
  safe O s evs ->
  forall p, p `prefix_of` evs ->
    size (filter (holds (replay p s)) (O ∪ registrations p)) <= 1 /\
    forall p' q h r, p = p' ++ [EvEnqueue q h r] ->
      filter (holds (replay p' s)) (O ∪ registrations p') = ∅.
Proof.
  revert O s. induction evs as [|e evs IH]; intros O s H0 Hs p Hp.
  - apply prefix_nil_inv in Hp as ->.
    rewrite registrations_nil, union_empty_r_L.
    split; [exact H0|]. intros [|? ?] ? ? ? [=].
  - destruct p as [|e' p].
    + rewrite registrations_nil, union_empty_r_L.
      split; [exact H0|]. intros [|? ?] ? ? ? [=].
    + apply prefix_cons_inv_1 in Hp as He. subst e'.
      apply prefix_cons_inv_2 in Hp.
      destruct Hs as (Ha & Hb & Hc).
      destruct (IH _ _ Hb Hc p Hp) as (I1 & I2).
      rewrite registrations_cons, (assoc_L (∪)), replay_cons.
      split; [exact I1|].
      intros [|e0 p'] q' h r E; cbn [app] in E.
      * injection E as -> ->. rewrite registrations_nil, union_empty_r_L. exact Ha.
      * injection E as <- ->. rewrite registrations_cons, (assoc_L (∪)), replay_cons.
        eapply I2. reflexivity.
Qed.

Lemma moves_trans (q : string) (O : gset Registration) (st st1 st2 : St)
    (e1 e2 : list Event) :
  moves q O st e1 st1 ->
  moves q (O ∪ registrations e1) st1 e2 st2 ->
  moves q O st (e1 ++ e2) st2.
Proof.
  intros (L1 & S1 & Q1 & F1 & H1) (L2 & S2 & Q2 & F2 & H2).
  unfold moves. rewrite L2, L1, S2, S1, replay_app, app_assoc, registrations_app.
  split; [reflexivity|]. split; [reflexivity|]. split; [exact Q2|].
  split.
  - apply safe_app; [exact F1|]. rewrite <- S1. exact F2.
  - rewrite (assoc_L (∪)), <- replay_app. rewrite S2, S1, <- replay_app in H2. exact H2.
Qed.

(** A change of state without events: the schedulers are as they were and
    the record holds the same registration. *)
Lemma moves_silent (q : string) (O : gset Registration) (st st' : St) :
  world st' = world st -> queue (self st') = q -> held (self st') = held (self st) ->
  only_held O (held (self st)) (schedulers (world st)) ->
  moves q O st [] st'.
Proof.
  intros Hw Hq Hj H. unfold moves. rewrite Hw, app_nil_r, registrations_nil, union_empty_r_L, Hj.
  split; [reflexivity|]. split; [reflexivity|]. split; [exact Hq|].
  split; [exact I | exact H].
Qed.

Lemma held_eq (j j' : BaseJob) :
  queue j' = queue j -> job_id j' = job_id j -> held j' = held j.
Proof. intros Hq Hj. unfold held. rewrite Hq, Hj. reflexivity. Qed.

Lemma jobs_in_insert (q q' : string) (g : gmap string Request)
    (s : gmap string (gmap string Request)) :
  jobs_in q' (<[q := g]> s) = if decide (q' = q) then g else jobs_in q' s.
Proof.
  unfold jobs_in. destruct (decide (q' = q)) as [->|Hq].
  - rewrite lookup_insert_eq. reflexivity.
  - rewrite lookup_insert_ne by congruence. reflexivity.
Qed.

Lemma jobs_in_alter (q q' h : string) (s : gmap string (gmap string Request)) :
  jobs_in q' (alter (delete h) q s) =
  if decide (q' = q) then delete h (jobs_in q' s) else jobs_in q' s.
Proof.
  unfold jobs_in. destruct (decide (q' = q)) as [->|Hq].
  - rewrite lookup_alter_eq. destruct (s !! q); [reflexivity|].
    symmetry. apply delete_empty.
  - rewrite lookup_alter_ne by congruence. reflexivity.
Qed.

(** What the schedulers hold after an event. *)
Lemma holds_cancel (q h : string) (s : gmap string (gmap string Request)) (r : Registration) :
  holds (apply_event (EvCancel q h) s) r <-> holds s r /\ r <> (q, h).
Proof.
  destruct r as [q' h']. unfold holds. cbn [fst snd apply_event].
  rewrite jobs_in_insert. destruct (decide (q' = q)) as [->|Hq].
  - destruct (decide (h' = h)) as [->|Hh].
    + rewrite lookup_delete_eq. split; [intros [? [=]] | intros [_ Hn]; congruence].
    + rewrite lookup_delete_ne by congruence.
      split; [intros H; split; [exact H | congruence] | intros [H _]; exact H].
  - split; [intros H; split; [exact H | congruence] | intros [H _]; exact H].
Qed.

Lemma holds_enqueue (q h : string) (req : Request) (s : gmap string (gmap string Request))
    (r : Registration) :
  holds (apply_event (EvEnqueue q h req) s) r <-> holds s r \/ r = (q, h).
Proof.
  destruct r as [q' h']. unfold holds. cbn [fst snd apply_event].
  rewrite jobs_in_insert. destruct (decide (q' = q)) as [->|Hq].
  - destruct (decide (h' = h)) as [->|Hh].
    + rewrite lookup_insert_eq. split; [right; reflexivity | eauto].
    + rewrite lookup_insert_ne by congruence.
      split; [left; assumption | intros [H | [= ]]; [exact H | congruence]].
  - split; [left; assumption | intros [H | [= ]]; [exact H | congruence]].
Qed.

Lemma holds_ran (q h : string) (s : gmap string (gmap string Request)) (r : Registration) :
  holds (apply_event (EvRan q h) s) r -> holds s r.
Proof.
  destruct r as [q' h']. unfold holds. cbn [fst snd apply_event].
  rewrite jobs_in_alter. destruct (decide (q' = q)) as [->|Hq]; [|auto].
  destruct (decide (h' = h)) as [->|Hh].
  - rewrite lookup_delete_eq. intros [? [=]].
  - rewrite lookup_delete_ne by congruence. auto.
Qed.

Lemma size_le_1_singleton (X : gset Registration) (r : Registration) :
  X ⊆ {[ r ]} -> size X <= 1.
Proof. intros H. apply subseteq_size in H. rewrite size_singleton in H. exact H. Qed.

Lemma size_le_1_empty (X : gset Registration) : X ⊆ ∅ -> size X <= 1.
Proof. intros H. apply subseteq_size in H. rewrite size_empty in H. lia. Qed.

Lemma subseteq_empty_eq (X : gset Registration) : X ⊆ ∅ -> X = ∅.
Proof.
  intros H. apply leibniz_equiv, elem_of_equiv_empty. intros x Hx.
  apply H in Hx. revert Hx. apply not_elem_of_empty.
Qed.

(** A record that is not [live] holds no registration that a scheduler
    holds. *)
Lemma not_live_none_held (O : gset Registration) (st : St) :
  live st = false ->
  only_held O (held (self st)) (schedulers (world st)) ->
  only_held O ∅ (schedulers (world st)).
Proof.
  intros Hl H x Hx. pose proof (H x Hx) as Hh. exfalso.
  apply elem_of_filter in Hx as [Hx _].
  unfold held, live in *. destruct (job_id (self st)) as [h|].
  - apply elem_of_singleton in Hh as ->. apply bool_decide_eq_false in Hl.
    apply Hl. exact Hx.
  - revert Hh. apply not_elem_of_empty.
Qed.

Lemma unschedule_moves (q : string) (O : gset Registration) (st st' : St) (r : Res bool) :
  queue (self st) = q ->
  only_held O (held (self st)) (schedulers (world st)) ->
  unschedule st = (r, st') ->
  exists evs, registrations evs = ∅ /\ moves q O st evs st' /\
    forall b, r = Ok b -> job_id (self st') = None.
Proof.
  intros Hq H Hu.
  destruct (unschedule_cases _ _ _ Hu)
    as [(e & -> & Hs & Hw) | [(-> & Hc & Hl & Hs & Hw) | (h & -> & Hc & Hl & Hj & Hs & Hw)]].
  - exists []. split; [reflexivity|]. split; [|discriminate].
    apply moves_silent; rewrite ?Hs; auto.
  - exists []. split; [reflexivity|]. split; [|intros _ _; rewrite Hs; reflexivity].
    unfold moves. rewrite Hw, Hs, app_nil_r, registrations_nil, union_empty_r_L.
    split; [reflexivity|]. split; [reflexivity|]. split; [exact Hq|]. split; [exact I|].
    unfold held at 1. cbn [job_id with_job_id].
    apply not_live_none_held; assumption.
  - exists [EvCancel q h]. split; [reflexivity|].
    split; [|intros _ _; rewrite Hs; reflexivity].
    assert (E : filter (holds (apply_event (EvCancel q h) (schedulers (world st)))) O ⊆ ∅).
    { intros x [[Hx1 Hx2]%holds_cancel Hx3]%elem_of_filter. exfalso. apply Hx2.
      assert (Hh : x ∈ held (self st)) by (apply H, elem_of_filter; auto).
      unfold held in Hh. rewrite Hj, Hq in Hh. apply elem_of_singleton in Hh. exact Hh. }
    unfold moves. rewrite Hw, Hs, Hq.
    split; [reflexivity|]. split; [reflexivity|]. split; [exact Hq|].
    cbn [safe enqueued_by]. rewrite registrations_cons, registrations_nil. cbn [enqueued_by].
    rewrite !union_empty_r_L.
    split; [split; [exact I|split; [apply size_le_1_empty, E | exact I]]|].
    exact E.
Qed.

Lemma schedule_moves (q : string) (O : gset Registration) (st st' : St) (r : Res bool) :
  queue (self st) = q ->
  job_id (self st) = None ->
  only_held O (held (self st)) (schedulers (world st)) ->
  schedule st = (r, st') ->
  exists evs, moves q O st evs st'.
Proof.
  intros Hq Hj H Hs.
  destruct (schedule_cases _ _ _ Hs)
    as [(_ & -> & _) | [(e & _ & Hs2 & Hw2 & _) | (req & _ & _ & _ & _ & Hs2 & Hw2 & _)]].
  - exists []. apply moves_silent; auto.
  - exists []. apply moves_silent; rewrite ?Hs2; auto.
  - exists [EvEnqueue q (new_job_id (uuids (world st))) req].
    unfold held in H. rewrite Hj in H.
    assert (E0 : filter (holds (schedulers (world st))) O = ∅)
      by (apply subseteq_empty_eq, H).
    assert (E : filter (holds (apply_event
                         (EvEnqueue q (new_job_id (uuids (world st))) req)
                         (schedulers (world st))))
                  (O ∪ {[(q, new_job_id (uuids (world st)))]})
                ⊆ {[(q, new_job_id (uuids (world st)))]}).
    { intros x [[Hx1|Hx1]%holds_enqueue [Hx2|Hx2]%elem_of_union]%elem_of_filter;
        try assumption; try (apply elem_of_singleton; assumption).
      exfalso. apply (not_elem_of_empty (C:=gset Registration) x). rewrite <- E0.
      apply elem_of_filter. split; assumption. }
    unfold moves. rewrite Hw2, Hs2, Hq.
    split; [reflexivity|]. split; [reflexivity|]. split; [exact Hq|].
    cbn [safe enqueued_by]. rewrite registrations_cons, registrations_nil. cbn [enqueued_by].
    rewrite !union_empty_r_L.
    split; [split; [exact E0|split; [eapply size_le_1_singleton, E | exact I]]|].
    unfold only_held, held. cbn [job_id with_job_id queue]. rewrite Hq. exact E.
Qed.

Lemma super_save_moves (q : string) (O : gset Registration) (st st' : St) (r : Res unit) :
  queue (self st) = q ->
  only_held O (held (self st)) (schedulers (world st)) ->
  super_save st = (r, st') ->
  exists evs, moves q O st evs st'.
Proof.
  intros Hq H Hs.
  destruct (super_save_cases _ _ _ Hs) as [(_ & ->) | (pk & _ & Hs2 & Hw2)].
  - exists []. apply moves_silent; auto.
  - exists [EvSave (with_id (Some pk) (self st))].
    unfold moves. rewrite Hw2, Hs2.
    split; [reflexivity|]. split; [reflexivity|]. split; [exact Hq|].
    cbn [safe enqueued_by apply_event]. rewrite registrations_cons, registrations_nil.
    cbn [enqueued_by]. rewrite !union_empty_r_L.
    split; [split; [exact I|split; [eapply only_held_size, H | exact I]]|].
    exact H.
Qed.

(** [save], raising or not, keeps the record on its queue and is [safe]. *)
Lemma save_moves (q : string) (O : gset Registration) (st : St) :
  queue (self st) = q ->
  only_held O (held (self st)) (schedulers (world st)) ->
  exists evs, moves q O st evs (snd (save st)).
Proof.
  intros Hq H. rewrite save_unfold.
  destruct (unschedule st) as [r1 st1] eqn:Hu.
  destruct (unschedule_moves _ _ _ _ _ Hq H Hu) as (e1 & En1 & M1 & Hj1).
  destruct r1 as [b1|x1]; [|exists e1; exact M1].
  specialize (Hj1 _ eq_refl).
  pose proof M1 as (_ & _ & Hq1 & _ & H1).
  destruct (if enabled (self st1) then schedule st1 else (Ok false, st1))
    as [r2 st2] eqn:Hs.
  assert (exists e2, moves q (O ∪ registrations e1) st1 e2 st2) as (e2 & M2).
  { destruct (enabled (self st1)).
    - eapply schedule_moves; eauto.
    - injection Hs as <- <-. exists []. apply moves_silent; auto. }
  pose proof (moves_trans _ _ _ _ _ _ _ M1 M2) as M12.
  destruct r2 as [b2|x2]; [|eexists; exact M12].
  pose proof M2 as (_ & _ & Hq2 & _ & H2).
  destruct (super_save st2) as [r3 st3] eqn:Hsv.
  destruct (super_save_moves q ((O ∪ registrations e1) ∪ registrations e2) _ _ _ Hq2 H2 Hsv)
    as (e3 & M3).
  rewrite <- (assoc_L (∪)), <- registrations_app in M3.
  eexists. cbn [snd]. eapply moves_trans; [exact M12 | exact M3].
Qed.

(** A reload of a record whose row is [in_step] gives the object the
    registration it had, if a scheduler holds it. *)
Lemma reload_moves (q : string) (O : gset Registration) (st : St) :
  in_step st = true ->
  queue (self st) = q ->
  only_held O (held (self st)) (schedulers (world st)) ->
  moves q O st [] (reload st).
Proof.
  intros Hi Hq H. unfold in_step, reload in *.
  destruct (stored st) as [row|]; [|apply moves_silent; auto].
  apply andb_true_iff in Hi as [Hr Hl]. apply String.eqb_eq in Hr.
  unfold moves. cbn [self world]. rewrite app_nil_r, registrations_nil, union_empty_r_L.
  split; [reflexivity|]. split; [reflexivity|]. split; [congruence|].
  split; [exact I|].
  destruct (live st) eqn:El.
  - cbn [negb orb] in Hl. apply bool_decide_eq_true in Hl.
    rewrite (held_eq (self st) row) by assumption. exact H.
  - intros x Hx. exfalso.
    apply (not_elem_of_empty (C:=gset Registration) x).
    exact (not_live_none_held O st El H x Hx).
Qed.

Lemma step_moves (q : string) (O : gset Registration) (s : Step) (st : St) :
  steady [s] st = true ->
  queue (self st) = q ->
  only_held O (held (self st)) (schedulers (world st)) ->
  exists evs, moves q O st evs (step s st).
Proof.
  intros Hf Hq H.
  destruct s; try discriminate Hf;
    try (exists []; apply moves_silent; auto; fail).
  - apply save_moves; assumption.
  - exists []. apply reload_moves; [|assumption..].
    cbn [steady] in Hf. apply andb_true_iff in Hf as [Hf _]. exact Hf.
  - exists [EvRan q0 h]. unfold moves.
    cbn [step self world job_ran with_log log schedulers with_schedulers].
    split; [reflexivity|]. split; [reflexivity|]. split; [exact Hq|].
    cbn [safe enqueued_by]. rewrite registrations_cons, registrations_nil.
    cbn [enqueued_by]. rewrite !union_empty_r_L.
    assert (E : only_held O (held (self st))
                  (apply_event (EvRan q0 h) (schedulers (world st)))).
    { intros x [Hx1%holds_ran Hx2]%elem_of_filter. apply H, elem_of_filter. auto. }
    split; [split; [exact I|split; [eapply only_held_size, E | exact I]]|].
    exact E.
Qed.

Lemma steady_cons (s : Step) (p : list Step) (st : St) :
  steady (s :: p) st = true -> steady [s] st = true /\ steady p (step s st) = true.
Proof.
  cbn [steady]. rewrite andb_true_r. apply andb_true_iff.
Qed.

Lemma run_moves (q : string) (p : list Step) (O : gset Registration) (st : St) :
  steady p st = true ->
  queue (self st) = q ->
  only_held O (held (self st)) (schedulers (world st)) ->
  exists evs, moves q O st evs (run p st).
Proof.
  revert O st. induction p as [|s p IH]; intros O st Hf Hq H.
  - exists []. apply moves_silent; auto.
  - apply steady_cons in Hf as [Hs Hp].
    destruct (step_moves q O s st Hs Hq H) as (e1 & M1).
    pose proof M1 as (_ & _ & Hq1 & _ & H1).
    destruct (IH _ _ Hp Hq1 H1) as (e2 & M2).
    exists (e1 ++ e2). cbn [run fold_left]. eapply moves_trans; eauto.
Qed.

Lemma only_held_start (st : St) :
  only_held (held (self st)) (held (self st)) (schedulers (world st)).
Proof. intros x [_ Hx]%elem_of_filter. exact Hx. Qed.

(** The invariant of a [steady] life, read at every prefix of its
    events. *)
Lemma steady_one_live (p : list Step) (st : St) :
  steady p st = true ->
  schedulers (world (run p st)) =
    replay (events_since st (run p st)) (schedulers (world st)) /\
  forall evs, evs `prefix_of` events_since st (run p st) ->
    size (live_registrations st evs) <= 1 /\
    forall evs' q h r, evs = evs' ++ [EvEnqueue q h r] ->
      live_registrations st evs' = ∅.
Proof.
  intros Hf.
  destruct (run_moves _ p _ st Hf eq_refl (only_held_start st)) as (evs0 & L & S & _ & F & _).
  assert (E : events_since st (run p st) = evs0).
  { unfold events_since. rewrite L. apply drop_app_length. }
  rewrite E. split; [exact S|].
  intros evs Hp. unfold live_registrations.
  apply (safe_prefix evs0);
    [eapply only_held_size, only_held_start | exact F | exact Hp].
Qed.

(** C2, as amended: over any sequence of saves of a record object during
    which its queue is not assigned and the object is read again from its
    row only when the row has the object's queue and, if the scheduler
    holds the object's job id, that job id (interleaved with assignments
    to the other fields, with saves that raise and with jobs run by the
    scheduler), the events logged account for the state of the schedulers,
    and at every point of that sequence of events at most one of the
    registrations made for the record is held by a scheduler, whichever
    its queue; at the point where an enqueue is made, none is. *)
Theorem one_live_registration (p : list Step) (st : St) :
  steady p st = true ->
  schedulers (world (run p st)) =
    replay (events_since st (run p st)) (schedulers (world st)) /\
  forall evs, evs `prefix_of` events_since st (run p st) ->
    size (live_registrations st evs) <= 1 /\
    forall evs' q h r, evs = evs' ++ [EvEnqueue q h r] ->
      live_registrations st evs' = ∅.
Proof. apply steady_one_live. Qed.

Lemma one_live_registration_witness :
  schedulers (world (run sample_life newborn_state)) =
    replay (events_since newborn_state (run sample_life newborn_state))
      (schedulers (world newborn_state)) /\
  forall evs, evs `prefix_of` events_since newborn_state (run sample_life newborn_state) ->
    size (live_registrations newborn_state evs) <= 1 /\
    forall evs' q h r, evs = evs' ++ [EvEnqueue q h r] ->
      live_registrations newborn_state evs' = ∅.
Proof.
  apply (one_live_registration sample_life newborn_state).
  vm_compute. reflexivity.
Defined.

(** The backend calls of that life, spelled out. *)
Example sample_life_events :
  List.filter (fun e => match e with EvSave _ => false | _ => true end)
    (events_since newborn_state (run sample_life newborn_state)) =
  [EvEnqueue "default" "job-1" sample_request;
   EvCancel "default" "job-1";
   EvEnqueue "default" "job-2"
     (EnqueueAt (utc tomorrow) "scheduler.tests.test_job" (Some 60%Z));
   EvRan "default" "job-2";
   EvEnqueue "default" "job-3"
     (EnqueueAt (utc tomorrow) "scheduler.tests.test_job" (Some 60%Z))].
Proof. vm_compute. reflexivity. Qed.

(** C2, counterexample: the record is saved, its queue is changed from
    [default] to [low], and it is saved again.  The second [save] looks
    for the old job in the scheduler of [low], does not find it and makes
    no cancel; it enqueues the second job while the first registration is
    live, and two registrations of the record are live afterwards. *)
Lemma queue_change_two_registrations :
  let first := [EvEnqueue "default" "job-1" sample_request;
                EvSave (with_id (Some 1%nat) (sample_job true (Some "job-1") None))] in
  let second := first ++ [EvEnqueue "low" "job-2" sample_request] in
  steady queue_change_life two_queues_state = false /\
  second `prefix_of`
    events_since two_queues_state (run queue_change_life two_queues_state) /\
  live_registrations two_queues_state first = {[ ("default", "job-1") ]} /\
  live_registrations two_queues_state second =
    {[ ("default", "job-1"); ("low", "job-2") ]} /\
  size (live_registrations two_queues_state second) = 2.
Proof.
  split; [reflexivity|]. split.
  - exists [EvSave (with_id (Some 1%nat)
              (set_field (SetQueue "low") (sample_job true (Some "job-2") None)))].
    vm_compute. reflexivity.
  - split; [|split]; vm_compute; reflexivity.
Qed.

(** Why a reload must find the row [in_step]: the record is saved, takes
    the name of another row and is saved again, so that the write fails
    after the enqueue of job-2; read again from its row it holds job-1,
    which the scheduler no longer has, and its next [save] enqueues job-3
    without a cancel of job-2. *)
Example lost_write_two_registrations :
  steady lost_write_life crowded_state = false /\
  List.filter (fun e => match e with EvSave _ => false | _ => true end)
    (events_since crowded_state (run lost_write_life crowded_state)) =
  [EvEnqueue "default" "job-1" sample_request;
   EvCancel "default" "job-1";
   EvEnqueue "default" "job-2" sample_request;
   EvEnqueue "default" "job-3" sample_request] /\
  live_registrations crowded_state
    (events_since crowded_state (run lost_write_life crowded_state)) =
  {[ ("default", "job-2"); ("default", "job-3") ]}.
Proof. split; [|split]; vm_compute; reflexivity. Qed.

(** ** Unscheduling twice, and deleting *)

(** Once [unschedule] has completed, a second [unschedule] makes no backend
    change at all, and completes whenever the backend is up. *)
Theorem unschedule_twice (st st1 : St) (b : bool) :
  unschedule st = (Ok b, st1) ->
  log (world (snd (unschedule st1))) = log (world st1) /\
  schedulers (world (snd (unschedule st1))) = schedulers (world st1) /\
  (outages st1 = [] -> fst (unschedule st1) = Ok true).
Proof.
  intros H.
  destruct (unschedule_cases _ _ _ H)
    as [(e & [=] & _) | [(_ & Hc & _ & Hs & Hw) | (h & _ & Hc & _ & _ & Hs & Hw)]].
  - assert (Hl1 : live st1 = false) by (unfold live; rewrite Hs; reflexivity).
    assert (Hc1 : configured st1 = true) by (unfold configured; rewrite Hs, Hw; exact Hc).
    destruct (unschedule st1) as [r2 st2] eqn:H2. cbn [fst snd].
    destruct (unschedule_cases _ _ _ H2)
      as [(e & -> & _ & Hw2) | [(-> & _ & _ & _ & Hw2) | (h & _ & _ & Hl2 & _)]];
      [| |congruence]; rewrite Hw2; (split; [reflexivity|split; [reflexivity|]]).
    + intros Ho. destruct (unschedule_completes _ Hc1 Ho) as (st' & E & _). congruence.
    + reflexivity.
  - assert (Hl1 : live st1 = false) by (unfold live; rewrite Hs; reflexivity).
    assert (Hc1 : configured st1 = true).
    { unfold configured. rewrite Hs, Hw. cbn. apply bool_decide_eq_true_2.
      rewrite lookup_insert_eq. eauto. }
    destruct (unschedule st1) as [r2 st2] eqn:H2. cbn [fst snd].
    destruct (unschedule_cases _ _ _ H2)
      as [(e & -> & _ & Hw2) | [(-> & _ & _ & _ & Hw2) | (h' & _ & _ & Hl2 & _)]];
      [| |congruence]; rewrite Hw2; (split; [reflexivity|split; [reflexivity|]]).
    + intros Ho. destruct (unschedule_completes _ Hc1 Ho) as (st' & E & _). congruence.
    + reflexivity.
Qed.

Lemma unschedule_twice_witness :
  log (world (snd (unschedule (snd (unschedule (registered_state true [])))))) =
    log (world (snd (unschedule (registered_state true [])))) /\
  schedulers (world (snd (unschedule (snd (unschedule (registered_state true [])))))) =
    schedulers (world (snd (unschedule (registered_state true [])))) /\
  (outages (snd (unschedule (registered_state true []))) = [] ->
   fst (unschedule (snd (unschedule (registered_state true [])))) = Ok true).
Proof.
  apply (unschedule_twice (registered_state true []) _ true).
  vm_compute. reflexivity.
Defined.

(** A [delete] that completes has made the cancel of the unregister step
    (if the scheduler held the job id) and then removed the row of the
    record from the table. *)
Theorem delete_sequence (st st' : St) :
  delete_job st = (Ok tt, st') ->
  exists pk, id (self st) = Some pk /\
    log (world st') =
      log (world st) ++ unregister_events st ++ [EvDelete (with_job_id None (self st))] /\
    table (world st') = delete pk (table (world st)) /\
    job_id (self st') = None.
Proof.
  unfold delete_job. unfold bind at 1.
  destruct (unschedule st) as [[b|e] st1] eqn:Hu; [|discriminate].
  destruct (unschedule_log _ _ _ Hu) as (-> & Hj & Hl & _ & Ht & _).
  unfold super_delete. unfold_monad. rewrite Hj. cbn [id with_job_id].
  destruct (id (self st)) as [pk|]; [|discriminate].
  intros [= <-]. exists pk. cbn. rewrite Hl, Ht, Hj, <- app_assoc. auto.
Qed.

Lemma delete_sequence_witness :
  exists pk, id (self (snd (save (registered_state true [])))) = Some pk /\
    log (world (snd (delete_job (snd (save (registered_state true [])))))) =
      log (world (snd (save (registered_state true []))))
        ++ unregister_events (snd (save (registered_state true [])))
        ++ [EvDelete (with_job_id None (self (snd (save (registered_state true [])))))] /\
    table (world (snd (delete_job (snd (save (registered_state true [])))))) =
      delete pk (table (world (snd (save (registered_state true []))))) /\
    job_id (self (snd (delete_job (snd (save (registered_state true [])))))) = None.
Proof.
  apply (delete_sequence (snd (save (registered_state true [])))).
  vm_compute. reflexivity.
Defined.

(** * More of the code *)

(** ** The names [callable_func] imports *)

Lemma split_dots_cons (s : string) : exists piece pieces, split_dots s = piece :: pieces.
Proof.
  destruct s as [|a s]; cbn [split_dots]; [eauto|].
  destruct (Ascii.eqb a "."); [eauto|].
  destruct (split_dots s); eauto.
Qed.

Lemma concat_dot_cons (piece : string) (pieces : list string) :
  pieces <> [] ->
  String.concat "." (piece :: pieces) = (piece +:+ "." +:+ String.concat "." pieces).
Proof. destruct pieces; [congruence | reflexivity]. Qed.

Lemma join_split_dots (s : string) : join_dots (split_dots s) = s.
Proof.
  unfold join_dots. induction s as [|a s IH]; [reflexivity|].
  cbn [split_dots]. destruct (split_dots_cons s) as (p & ps & E).
  rewrite E in *. destruct (Ascii.eqb_spec a ".") as [->|Hne].
  - rewrite concat_dot_cons by discriminate. rewrite IH. reflexivity.
  - destruct ps as [|p' ps].
    + cbn in *. rewrite IH. reflexivity.
    + rewrite concat_dot_cons in * by discriminate. rewrite <- IH. reflexivity.
Qed.

Lemma split_dots_no_dot (s : string) : has_dot s = false -> split_dots s = [s].
Proof.
  induction s as [|a s IH]; [reflexivity|].
  cbn [has_dot split_dots]. intros [Ha Hs]%orb_false_iff.
  rewrite Ha, (IH Hs). reflexivity.
Qed.

Lemma split_dots_dot (s : string) :
  has_dot s = true -> exists p q qs, split_dots s = p :: q :: qs.
Proof.
  induction s as [|a s IH]; [discriminate|].
  cbn [has_dot split_dots]. destruct (Ascii.eqb a ".").
  - intros _. destruct (split_dots_cons s) as (p & ps & ->). eauto.
  - cbn [orb]. intros H. destruct (IH H) as (p & q & qs & ->). eauto.
Qed.

Lemma split_dots_pieces (s : string) :
  Forall (fun piece => has_dot piece = false) (split_dots s).
Proof.
  induction s as [|a s IH]; [repeat constructor|].
  cbn [split_dots]. destruct (Ascii.eqb a ".") eqn:Ha.
  - constructor; [reflexivity | exact IH].
  - destruct (split_dots s) as [|p ps]; [repeat constructor; cbn; rewrite Ha; reflexivity|].
    inversion IH as [|? ? Hp Hps]; subst. constructor; [|exact Hps].
    cbn. rewrite Ha, Hp. reflexivity.
Qed.

Lemma string_app_assoc (a b c : string) : ((a +:+ b) +:+ c) = (a +:+ (b +:+ c)).
Proof.
  induction a as [|x a IH]; [reflexivity|].
  change (String x ((a +:+ b) +:+ c) = String x (a +:+ (b +:+ c))).
  rewrite IH. reflexivity.
Qed.

Lemma concat_dot_snoc (pieces : list string) (piece : string) :
  pieces <> [] ->
  String.concat "." (pieces ++ [piece]) = (String.concat "." pieces +:+ "." +:+ piece).
Proof.
  induction pieces as [|p ps IH]; [congruence|]. intros _.
  destruct ps as [|p' ps]; [reflexivity|].
  change ((p :: p' :: ps) ++ [piece]) with (p :: ((p' :: ps) ++ [piece])).
  rewrite concat_dot_cons by discriminate.
  rewrite IH by discriminate.
  rewrite (concat_dot_cons p) by discriminate.
  rewrite !string_app_assoc. reflexivity.
Qed.

(** The split that [callable_func] makes of a dotted path loses nothing: a
    path with a dot is the module name, a dot, and the attribute name; a
    path without a dot gives the empty module name and itself as the
    attribute; the attribute name never has a dot. *)
Theorem import_names_recompose (c : string) :
  c = (if has_dot c
       then fst (import_names c) +:+ "." +:+ snd (import_names c)
       else snd (import_names c)) /\
  (has_dot c = false -> import_names c = (EmptyString, c)) /\
  has_dot (snd (import_names c)) = false.
Proof.
  unfold import_names. cbn [fst snd].
  pose proof (join_split_dots c) as J. pose proof (split_dots_pieces c) as P.
  destruct (split_dots_cons c) as (p & ps & E).
  assert (N : split_dots c <> []) by (rewrite E; discriminate).
  pose proof (app_removelast_last EmptyString N) as A.
  split; [|split].
  - destruct (has_dot c) eqn:H.
    + destruct (split_dots_dot c H) as (p1 & q & qs & E2).
      unfold join_dots in *. rewrite <- concat_dot_snoc.
      * rewrite <- A. symmetry. exact J.
      * rewrite E2. discriminate.
    + rewrite (split_dots_no_dot c H). reflexivity.
  - intros H. rewrite (split_dots_no_dot c H). reflexivity.
  - rewrite A in P. apply Forall_app in P as [_ P]. inversion P; assumption.
Qed.

Example import_names_test_job :
  import_names "scheduler.tests.test_job" = ("scheduler.tests", "test_job").
Proof. reflexivity. Qed.

(** ** Validation *)

Lemma queue_keys_configured (st : St) :
  bool_decide (queue (self st) ∈ queue_keys (world st)) = configured st.
Proof.
  unfold configured, queue_keys. apply bool_decide_ext.
  rewrite list_elem_of_fmap. split.
  - intros ([k v] & -> & H%elem_of_map_to_list). cbn. eauto.
  - intros [v H]. exists (queue (self st), v). split; [reflexivity|].
    apply elem_of_map_to_list. exact H.
Qed.

Lemma clean_callable_run (st : St) :
  clean_callable st =
  (match importable (world st) !! callable (self st) with
   | Some true => Ok tt
   | _ => Raise (ValidationError (Some "callable") not_importable_message)
   end, st).
Proof.
  unfold clean_callable. rewrite callable_func_result.
  destruct (importable (world st) !! callable (self st)) as [[]|]; reflexivity.
Qed.

Lemma clean_queue_run (st : St) :
  clean_queue st =
  (if configured st then Ok tt
   else Raise (ValidationError (Some "queue") (wrong_queue_message (queue_keys (world st)))),
   st).
Proof.
  unfold clean_queue. unfold_monad. rewrite queue_keys_configured.
  destruct (configured st); reflexivity.
Qed.

Lemma clean_run (croniter : string -> Croniter) (st : St) :
  clean croniter st =
  (match importable (world st) !! callable (self st) with
   | Some true =>
       if configured st then
         match cls (self st) with
         | CronJob c _ =>
             match croniter c with
             | CronParsed => Ok tt
             | CronValueError m => Raise (ValidationError (Some "cron_string") m)
             | CronOtherError e => Raise e
             end
         | _ => Ok tt
         end
       else Raise (ValidationError (Some "queue")
                     (wrong_queue_message (queue_keys (world st))))
   | _ => Raise (ValidationError (Some "callable") not_importable_message)
   end, st).
Proof.
  unfold clean. unfold bind at 1. unfold get_self at 1.
  destruct (cls (self st)) as [t|t n u r|c r] eqn:Hk;
    unfold CronJob_clean, BaseJob_clean, clean_cron_string;
    unfold bind, get_self; rewrite clean_callable_run;
    (destruct (importable (world st) !! callable (self st)) as [[]|]; [|reflexivity..]);
    rewrite clean_queue_run; (destruct (configured st); [|reflexivity]);
    rewrite ?Hk; try reflexivity.
  destruct (croniter c); reflexivity.
Qed.

(** [clean] changes nothing.  It passes exactly when the callable imports
    and can be called, the queue is one of [RQ_QUEUES] and, for a
    [CronJob], the cron string parses.  It reports the first check that
    fails: the callable, then the queue, then the cron string; whatever
    the import raised is reported as a [ValidationError] on [callable]. *)
Theorem clean_outcome (croniter : string -> Croniter) (st : St) :
  snd (clean croniter st) = st /\
  (fst (clean croniter st) = Ok tt <->
   importable (world st) !! callable (self st) = Some true /\
   configured st = true /\
   forall c r, cls (self st) = CronJob c r -> croniter c = CronParsed) /\
  (importable (world st) !! callable (self st) <> Some true ->
   fst (clean croniter st) =
     Raise (ValidationError (Some "callable") not_importable_message)) /\
  (importable (world st) !! callable (self st) = Some true ->
   configured st = false ->
   fst (clean croniter st) =
     Raise (ValidationError (Some "queue") (wrong_queue_message (queue_keys (world st))))) /\
  (importable (world st) !! callable (self st) = Some true ->
   configured st = true ->
   forall c r m, cls (self st) = CronJob c r -> croniter c = CronValueError m ->
   fst (clean croniter st) = Raise (ValidationError (Some "cron_string") m)).
Proof.
  rewrite clean_run. cbn [fst snd]. split; [reflexivity|].
  destruct (importable (world st) !! callable (self st)) as [[]|] eqn:Hi.
  2,3: (split; [split; [discriminate | intros ([=] & _)]|]);
       (split; [reflexivity|]); split; intros [=].
  destruct (configured st) eqn:Hc.
  2:{ split; [split; [discriminate | intros (_ & [=] & _)]|].
      split; [congruence|]. split; [reflexivity|]. intros _ [=]. }
  split; [|split; [congruence|split; [intros _ [=]|]]].
  - destruct (cls (self st)) as [t|t n u r|c r] eqn:Hk.
    + split; [intros _; repeat split; intros ? ? [=] | reflexivity].
    + split; [intros _; repeat split; intros ? ? [=] | reflexivity].
    + destruct (croniter c) eqn:Hcr.
      * split; [intros _; repeat split; intros ? ? [= <- <-]; exact Hcr | reflexivity].
      * split; [discriminate | intros (_ & _ & H); specialize (H _ _ eq_refl); congruence].
      * split; [discriminate | intros (_ & _ & H); specialize (H _ _ eq_refl); congruence].
  - intros _ _ c r m Hk Hcr. rewrite Hk, Hcr. reflexivity.
Qed.

(** ** What [schedule] hands over, and how it fails *)

Lemma interval_seconds_ok (n : Z) (u : Units) (s : Z) :
  interval_seconds n u = Ok s ->
  s = spec_interval n u /\
  (- MAX_DELTA_DAYS <= spec_interval n u / 86400 <= MAX_DELTA_DAYS)%Z.
Proof.
  intros H.
  assert (R : (- MAX_DELTA_DAYS <= spec_interval n u / 86400 <= MAX_DELTA_DAYS)%Z).
  { unfold interval_seconds in H. rewrite timedelta_kw_range in H.
    destruct (_ && _)%bool eqn:C in H; [|discriminate].
    apply andb_true_iff in C as [C1 C2]. apply Z.leb_le in C1, C2. lia. }
  rewrite (interval_seconds_in_range n u R) in H. injection H as <-. auto.
Qed.

Lemma interval_seconds_raise (n : Z) (u : Units) (e : Exn) :
  interval_seconds n u = Raise e ->
  e = OverflowError /\ (MAX_DELTA_DAYS < Z.abs (spec_interval n u / 86400))%Z.
Proof.
  unfold interval_seconds. rewrite timedelta_kw_range.
  destruct (_ && _)%bool eqn:C; [discriminate|].
  intros [= <-]. split; [reflexivity|].
  apply andb_false_iff in C as [C|C]; apply Z.leb_gt in C; lia.
Qed.

(** What [schedule] does with a record it does not decline: it registers
    the request of the record's class, or raises with record and world as
    they were. *)
Lemma schedule_schedulable_cases (st : St) (r : Res bool) (st' : St) :
  truthy_str (job_id (self st)) = false -> enabled (self st) = true ->
  schedule st = (r, st') ->
  (r = Ok true /\
   importable (world st) !! callable (self st) = Some true /\
   configured st = true /\ up st = true /\ ~ interval_overflows (self st) /\
   self st' = with_job_id (Some (new_job_id (uuids (world st)))) (self st) /\
   world st' = enqueued (queue (self st)) (request_of (self st)) (world st)) \/
  (exists e, r = Raise e /\ self st' = self st /\ world st' = world st).
Proof.
  intros Ht He. unfold schedule. unfold bind at 1. unfold get_self at 1.
  unfold interval_overflows, request_of.
  destruct (cls (self st)) as [t|t n u rp|c rp] eqn:Hcls;
    unfold BaseJob_schedule, RepeatableJob_schedule, CronJob_schedule;
    unfold bind at 1; rewrite is_schedulable_run, Ht, He; cbn [negb andb];
    unfold schedule_time_utc; unfold_monad; rewrite ?Hcls.
  - rewrite scheduler_cases. destruct (configured st) eqn:Hc.
    2:{ intros [= <- <-]; right; eexists; (split; [reflexivity|]); cbn; intuition (auto; try discriminate). }
    rewrite Hcls, callable_func_result.
    destruct (importable (world st) !! callable (self st)) as [[]|] eqn:Hi.
    2,3: intros [= <- <-]; right; eexists; (split; [reflexivity|]); cbn; intuition (auto; try discriminate).
    destruct (scheduler_enqueue_run (queue (self st))
                (EnqueueAt (utc t) (callable (self st)) (timeout_kwarg (self st))) st)
      as [o ->].
    destruct (up st); cbn; intros [= <- <-]; [left | right].
    + cbn. intuition auto.
    + eexists; (split; [reflexivity|]); cbn; intuition (auto; try discriminate).
  - rewrite callable_func_result.
    destruct (importable (world st) !! callable (self st)) as [[]|] eqn:Hi.
    2,3: intros [= <- <-]; right; eexists; (split; [reflexivity|]); cbn; intuition (auto; try discriminate).
    destruct (interval_seconds n u) as [secs|e] eqn:Hsec.
    2:{ intros [= <- <-]; right; eexists; (split; [reflexivity|]); cbn; intuition auto. }
    destruct (interval_seconds_ok _ _ _ Hsec) as [-> Hrange].
    rewrite scheduler_cases. destruct (configured st) eqn:Hc.
    2:{ intros [= <- <-]; right; eexists; (split; [reflexivity|]); cbn; intuition (auto; try discriminate). }
    destruct (scheduler_enqueue_run (queue (self st))
                (Schedule (utc t) (callable (self st)) (spec_interval n u) rp
                   (timeout_kwarg (self st))) st) as [o ->].
    destruct (up st); cbn; intros [= <- <-]; [left | right].
    + cbn. intuition (auto; lia).
    + eexists; (split; [reflexivity|]); cbn; intuition (auto; try discriminate).
  - rewrite callable_func_result.
    destruct (importable (world st) !! callable (self st)) as [[]|] eqn:Hi.
    2,3: intros [= <- <-]; right; eexists; (split; [reflexivity|]); cbn; intuition (auto; try discriminate).
    rewrite scheduler_cases. destruct (configured st) eqn:Hc.
    2:{ intros [= <- <-]; right; eexists; (split; [reflexivity|]); cbn; intuition (auto; try discriminate). }
    destruct (scheduler_enqueue_run (queue (self st))
                (Cron (callable (self st)) c rp (timeout_kwarg (self st))) st) as [o ->].
    destruct (up st); cbn; intros [= <- <-]; [left | right].
    + cbn. intuition auto.
    + eexists; (split; [reflexivity|]); cbn; intuition (auto; try discriminate).
Qed.

Lemma schedule_ok_schedulable (st st' : St) (b : bool) :
  schedule st = (Ok b, st') ->
  b = true ->
  truthy_str (job_id (self st)) = false /\ enabled (self st) = true.
Proof.
  intros H ->. destruct (schedule_cases _ _ _ H)
    as [([=] & _) | [(e & [=] & _) | (req & _ & Ht & He & _)]]. auto.
Qed.

Lemma schedule_raise_schedulable (st st' : St) (e : Exn) :
  schedule st = (Raise e, st') ->
  truthy_str (job_id (self st)) = false /\ enabled (self st) = true.
Proof.
  intros H. destruct (schedule_cases _ _ _ H)
    as [([=] & _) | [(e' & _ & _ & _ & Ht & He) | (req & [=] & _)]]. auto.
Qed.

(** A [schedule] that registers a record hands the scheduler the request
    of the record's class: the scheduled time in UTC, the callable, for a
    [RepeatableJob] the interval in seconds and the repeat count, for a
    [CronJob] the cron string and the repeat count, and the timeout if it
    is set and not zero; the scheduler then holds it under the new job id,
    which the record stores. *)
Theorem schedule_hands_over (st st' : St) :
  schedule st = (Ok true, st') ->
  log (world st') =
    log (world st)
      ++ [EvEnqueue (queue (self st)) (new_job_id (uuids (world st))) (request_of (self st))] /\
  jobs_of (queue (self st)) (world st') !! new_job_id (uuids (world st)) =
    Some (request_of (self st)) /\
  job_id (self st') = Some (new_job_id (uuids (world st))) /\
  ~ interval_overflows (self st).
Proof.
  intros H. destruct (schedule_ok_schedulable _ _ _ H eq_refl) as [Ht He].
  destruct (schedule_schedulable_cases _ _ _ Ht He H)
    as [(_ & _ & _ & _ & Hov & Hs & Hw) | (e & [=] & _)].
  rewrite Hw, Hs. cbn. split; [reflexivity|]. split; [|auto].
  unfold jobs_of. cbn. rewrite lookup_insert_eq. cbn. apply lookup_insert_eq.
Qed.

Lemma schedule_hands_over_witness :
  log (world (snd (schedule (state_of (sample_repeatable_job None 2 weeks) ∅ [])))) =
    log (world (state_of (sample_repeatable_job None 2 weeks) ∅ []))
      ++ [EvEnqueue (queue (self (state_of (sample_repeatable_job None 2 weeks) ∅ [])))
            (new_job_id (uuids (world (state_of (sample_repeatable_job None 2 weeks) ∅ []))))
            (request_of (self (state_of (sample_repeatable_job None 2 weeks) ∅ [])))] /\
  jobs_of (queue (self (state_of (sample_repeatable_job None 2 weeks) ∅ [])))
    (world (snd (schedule (state_of (sample_repeatable_job None 2 weeks) ∅ []))))
    !! new_job_id (uuids (world (state_of (sample_repeatable_job None 2 weeks) ∅ []))) =
    Some (request_of (self (state_of (sample_repeatable_job None 2 weeks) ∅ []))) /\
  job_id (self (snd (schedule (state_of (sample_repeatable_job None 2 weeks) ∅ [])))) =
    Some (new_job_id (uuids (world (state_of (sample_repeatable_job None 2 weeks) ∅ [])))) /\
  ~ interval_overflows (self (state_of (sample_repeatable_job None 2 weeks) ∅ [])).
Proof.
  apply (schedule_hands_over (state_of (sample_repeatable_job None 2 weeks) ∅ [])).
  vm_compute. reflexivity.
Defined.

(** ** How [unschedule], [schedule], [save] and [delete] fail *)

Lemma unschedule_unconfigured (st : St) :
  configured st = false ->
  unschedule st = (Raise (KeyError (queue (self st))), st).
Proof.
  intros Hc. unfold unschedule, is_scheduled. unfold_monad.
  rewrite scheduler_cases, Hc. reflexivity.
Qed.

Lemma unschedule_raise_cases (st st' : St) (e : Exn) :
  unschedule st = (Raise e, st') ->
  self st' = self st /\ world st' = world st /\
  (e = KeyError (queue (self st)) /\ configured st = false \/
   e = BackendUnavailable /\ configured st = true).
Proof.
  unfold unschedule. unfold bind at 1.
  destruct (is_scheduled_cases st) as (Hs & Hw & Hr).
  destruct (is_scheduled st) as [[s|e1] st1]; cbn [fst snd] in *.
  - destruct (configured st) eqn:Hc; [|discriminate].
    destruct (up st); [|discriminate]. injection Hr as ->.
    assert (Hc1 : configured st1 = true) by (unfold configured; rewrite Hs, Hw; exact Hc).
    destruct (live st) eqn:Hl; [|unfold_monad; discriminate].
    unfold_monad. rewrite scheduler_cases, Hc1.
    unfold scheduler_cancel. unfold_monad.
    destruct (backend_call_run st1) as [o ->].
    destruct (up st1); cbn.
    + destruct (job_id (self st1)); cbn; discriminate.
    + intros [= <- <-]. cbn. auto.
  - intros [= <- <-]. split; [exact Hs|]. split; [exact Hw|].
    destruct (configured st); [destruct (up st)|];
      try discriminate Hr; injection Hr as ->; auto.
Qed.

(** [unschedule] is all or nothing: when it raises, the error is the
    missing queue ([KeyError]) or the unreachable backend, and the record,
    its job id included, and the world are as they were; this holds also
    when the membership test went through and the cancel failed. *)
Theorem unschedule_raises_only (st st' : St) (e : Exn) :
  unschedule st = (Raise e, st') ->
  backend_error e /\ self st' = self st /\ world st' = world st.
Proof.
  intros H. destruct (unschedule_raise_cases _ _ _ H) as (Hs & Hw & [[-> _] | [-> _]]);
    cbn; auto.
Qed.

Lemma unschedule_raises_only_witness :
  backend_error BackendUnavailable /\
  self (snd (unschedule (registered_state true [false; true]))) =
    self (registered_state true [false; true]) /\
  world (snd (unschedule (registered_state true [false; true]))) =
    world (registered_state true [false; true]).
Proof.
  apply (unschedule_raises_only (registered_state true [false; true])).
  vm_compute. reflexivity.
Defined.

(** [schedule] is all or nothing: when it raises, whatever the step that
    failed, no job was enqueued and the record and the world are as they
    were; the job id is stored only after the enqueue has returned. *)
Theorem schedule_all_or_nothing (st st' : St) (e : Exn) :
  schedule st = (Raise e, st') ->
  self st' = self st /\ world st' = world st.
Proof.
  intros H. destruct (schedule_raise_schedulable _ _ _ H) as [Ht He].
  destruct (schedule_schedulable_cases _ _ _ Ht He H)
    as [([=] & _) | (e' & _ & Hs & Hw)]. auto.
Qed.

Lemma schedule_all_or_nothing_witness :
  self (snd (schedule (state_of (sample_repeatable_job None 1000000000 days) ∅ []))) =
    self (state_of (sample_repeatable_job None 1000000000 days) ∅ []) /\
  world (snd (schedule (state_of (sample_repeatable_job None 1000000000 days) ∅ []))) =
    world (state_of (sample_repeatable_job None 1000000000 days) ∅ []).
Proof.
  apply (schedule_all_or_nothing
           (state_of (sample_repeatable_job None 1000000000 days) ∅ []) _ OverflowError).
  vm_compute. reflexivity.
Defined.

(** A [save] that raises has written nothing: the table is as it was and
    no write is among the calls that took effect, whichever step failed. *)
Theorem save_raise_writes_nothing (st st' : St) (e : Exn) :
  save st = (Raise e, st') ->
  table (world st') = table (world st) /\
  exists evs, log (world st') = log (world st) ++ evs /\
    forall row, ~ In (EvSave row) evs.
Proof. apply save_raise_cases. Qed.

Lemma save_raise_writes_nothing_witness :
  table (world (snd (save (registered_state true [false; false; true])))) =
    table (world (registered_state true [false; false; true])) /\
  exists evs,
    log (world (snd (save (registered_state true [false; false; true])))) =
      log (world (registered_state true [false; false; true])) ++ evs /\
    forall row, ~ In (EvSave row) evs.
Proof.
  apply (save_raise_writes_nothing (registered_state true [false; false; true]) _
           BackendUnavailable).
  vm_compute. reflexivity.
Defined.

(** A record whose queue is not in [RQ_QUEUES] can be neither saved nor
    deleted: both raise [KeyError] before anything is touched, so the
    record keeps its job id and its row. *)
Theorem unconfigured_queue_blocks (st : St) :
  configured st = false ->
  save st = (Raise (KeyError (queue (self st))), st) /\
  delete_job st = (Raise (KeyError (queue (self st))), st).
Proof.
  intros Hc. split.
  - rewrite save_unfold, (unschedule_unconfigured _ Hc). reflexivity.
  - unfold delete_job, bind. rewrite (unschedule_unconfigured _ Hc). reflexivity.
Qed.

Lemma unconfigured_queue_blocks_witness :
  save (edit (set_field (SetQueue "high")) (registered_state true [])) =
    (Raise (KeyError (queue (self (edit (set_field (SetQueue "high")) (registered_state true []))))),
     edit (set_field (SetQueue "high")) (registered_state true [])) /\
  delete_job (edit (set_field (SetQueue "high")) (registered_state true [])) =
    (Raise (KeyError (queue (self (edit (set_field (SetQueue "high")) (registered_state true []))))),
     edit (set_field (SetQueue "high")) (registered_state true [])).
Proof.
  apply (unconfigured_queue_blocks (edit (set_field (SetQueue "high")) (registered_state true []))).
  vm_compute. reflexivity.
Defined.

(** When the backend is down at the first call, [save] and [delete] raise
    [BackendUnavailable] and leave the record and the world as they
    were. *)
Theorem backend_down_blocks (st : St) :
  configured st = true -> up st = false ->
  fst (save st) = Raise BackendUnavailable /\
  self (snd (save st)) = self st /\ world (snd (save st)) = world st /\
  fst (delete_job st) = Raise BackendUnavailable /\
  self (snd (delete_job st)) = self st /\ world (snd (delete_job st)) = world st.
Proof.
  intros Hc Hu.
  assert (E : exists o, unschedule st =
                (Raise BackendUnavailable,
                 {| self := self st; world := world st; outages := o |})).
  { unfold unschedule, is_scheduled, scheduler_contains. unfold_monad.
    rewrite scheduler_cases, Hc. destruct (backend_call_run st) as [o ->].
    rewrite Hu. eauto. }
  destruct E as [o E].
  rewrite save_unfold. unfold delete_job, bind. rewrite E. cbn. auto 10.
Qed.

Lemma backend_down_blocks_witness :
  fst (save (registered_state true [true])) = Raise BackendUnavailable /\
  self (snd (save (registered_state true [true]))) = self (registered_state true [true]) /\
  world (snd (save (registered_state true [true]))) = world (registered_state true [true]) /\
  fst (delete_job (registered_state true [true])) = Raise BackendUnavailable /\
  self (snd (delete_job (registered_state true [true]))) =
    self (registered_state true [true]) /\
  world (snd (delete_job (registered_state true [true]))) =
    world (registered_state true [true]).
Proof.
  apply (backend_down_blocks (registered_state true [true])).
  - vm_compute. reflexivity.
  - reflexivity.
Defined.

(** ** Validation and [save] *)

Lemma clean_ok_facts (croniter : string -> Croniter) (st : St) :
  fst (clean croniter st) = Ok tt ->
  importable (world st) !! callable (self st) = Some true /\ configured st = true.
Proof.
  rewrite clean_run. cbn [fst].
  destruct (importable (world st) !! callable (self st)) as [[]|]; try discriminate.
  destruct (configured st); [auto | discriminate].
Qed.




Lemma schedule_overflow (st : St) :
  truthy_str (job_id (self st)) = false -> enabled (self st) = true ->
  importable (world st) !! callable (self st) = Some true ->
  interval_overflows (self st) ->
  schedule st = (Raise OverflowError, st).
Proof.
  intros Ht He Hi Hov. unfold interval_overflows in Hov.
  unfold schedule. unfold bind at 1. unfold get_self at 1.
  destruct (cls (self st)) as [t|t n u rp|c rp] eqn:Hcls; try contradiction.
  unfold RepeatableJob_schedule. unfold bind at 1.
  rewrite is_schedulable_run, Ht, He. cbn [negb andb].
  unfold schedule_time_utc. unfold_monad. repeat (rewrite Hcls; cbn beta iota).
  rewrite callable_func_result, Hi.
  rewrite (interval_seconds_out_of_range n u Hov). reflexivity.
Qed.

(** [clean] does not look at the interval: an enabled [RepeatableJob]
    whose interval is beyond [timedelta]'s range passes [clean], and its
    [save] raises [OverflowError] after the unregister step: the old
    registration is cancelled, the record is left without a job id, and
    nothing is written. *)
Theorem save_interval_overflow (croniter : string -> Croniter) (st : St) :
  fst (clean croniter st) = Ok tt ->
  interval_overflows (self st) ->
  enabled (self st) = true ->
  outages st = [] ->
  fst (save st) = Raise OverflowError /\
  job_id (self (snd (save st))) = None /\
  table (world (snd (save st))) = table (world st) /\
  log (world (snd (save st))) = log (world st) ++ unregister_events st.
Proof.
  intros Hcl Hov He Ho. destruct (clean_ok_facts _ _ Hcl) as [Hi Hc].
  destruct (unschedule_completes _ Hc Ho) as (st1 & Hu & Ho1 & Hc1 & Hs1 & Hi1 & Ht1).
  destruct (unschedule_log _ _ _ Hu) as (_ & _ & Hl & _).
  assert (Hsch : schedule st1 = (Raise OverflowError, st1)).
  { apply schedule_overflow; rewrite ?Hs1, ?Hi1; auto. }
  rewrite save_unfold, Hu, Hs1. cbn [enabled with_job_id]. rewrite He, Hsch.
  cbn [fst snd]. rewrite Hs1. auto.
Qed.

Lemma save_interval_overflow_witness :
  fst (save (state_of (sample_repeatable_job (Some "job-0") 1000000000 days)
               {[ "job-0" := sample_request ]} [])) = Raise OverflowError /\
  job_id (self (snd (save (state_of (sample_repeatable_job (Some "job-0") 1000000000 days)
                             {[ "job-0" := sample_request ]} [])))) = None /\
  table (world (snd (save (state_of (sample_repeatable_job (Some "job-0") 1000000000 days)
                             {[ "job-0" := sample_request ]} [])))) =
    table (world (state_of (sample_repeatable_job (Some "job-0") 1000000000 days)
                    {[ "job-0" := sample_request ]} [])) /\
  log (world (snd (save (state_of (sample_repeatable_job (Some "job-0") 1000000000 days)
                           {[ "job-0" := sample_request ]} [])))) =
    log (world (state_of (sample_repeatable_job (Some "job-0") 1000000000 days)
                  {[ "job-0" := sample_request ]} []))
      ++ unregister_events (state_of (sample_repeatable_job (Some "job-0") 1000000000 days)
                              {[ "job-0" := sample_request ]} []).
Proof.
  apply (save_interval_overflow every_minute_only
           (state_of (sample_repeatable_job (Some "job-0") 1000000000 days)
              {[ "job-0" := sample_request ]} [])).
  - vm_compute. reflexivity.
  - vm_compute. reflexivity.
  - reflexivity.
  - reflexivity.
Defined.

(** [interval_seconds] raises exactly when the interval is beyond
    [timedelta]'s range, and then it raises [OverflowError]. *)
Theorem interval_seconds_raises_iff (n : Z) (u : Units) :
  (interval_seconds n u = Raise OverflowError <->
   (MAX_DELTA_DAYS < Z.abs (spec_interval n u / 86400))%Z) /\
  (forall e, interval_seconds n u = Raise e -> e = OverflowError) /\
  (0 <= n <= 2147483647 ->
   (interval_seconds n u = Raise OverflowError <->
    match u with
    | days => 999999999 < n
    | weeks => 142857142 < n
    | _ => False
    end))%Z.
Proof.
  split; [|split].
  - split.
    + intros H. apply (interval_seconds_raise _ _ _ H).
    + apply interval_seconds_out_of_range.
  - intros e H. apply (interval_seconds_raise _ _ _ H).
  - intros Hn. split.
    + intros H. destruct u;
        try (rewrite (interval_seconds_field_range n _ Hn) in H; [discriminate | lia]);
        match goal with |- (?b < n)%Z =>
          destruct (Z.lt_ge_cases b n) as [|Hle]; [assumption|] end;
        rewrite (interval_seconds_field_range n _ Hn) in H; try discriminate; lia.
    + intros H. apply interval_seconds_out_of_range. unfold MAX_DELTA_DAYS.
      destruct u; try contradiction; cbn [spec_interval].
      * rewrite Z.div_mul by lia. lia.
      * replace (n * 604800)%Z with (n * 7 * 86400)%Z by lia.
        rewrite Z.div_mul by lia. lia.
Qed.

(** ** After a [save] *)

(** The state a [save] that completes leaves. *)
Lemma save_ok_state (st st' : St) :
  save st = (Ok tt, st') ->
  exists pk,
    self st' =
      with_id (Some pk)
        (with_job_id (if enabled (self st)
                      then Some (new_job_id (uuids (world st))) else None) (self st)) /\
    configured st' = true /\
    uuids (world st') =
      (if enabled (self st) then S (uuids (world st)) else uuids (world st)) /\
    jobs_of (queue (self st)) (world st') =
      (if enabled (self st)
       then <[new_job_id (uuids (world st)) := request_of (with_job_id None (self st))]>
       else fun js => js)
        (match job_id (self st) with
         | Some h => delete h (jobs_of (queue (self st)) (world st))
         | None => jobs_of (queue (self st)) (world st)
         end).
Proof.
  rewrite save_unfold.
  destruct (unschedule st) as [[b|e] st1] eqn:Hu; [|discriminate].
  destruct (unschedule_log _ _ _ Hu) as (-> & Hj & Hl & Hn & Ht & Hjobs).
  assert (Hc1 : configured st1 = true).
  { destruct (unschedule_cases _ _ _ Hu)
      as [(e & [=] & _) | [(_ & Hc & _ & Hs & Hw) | (h & _ & Hc & _ & _ & Hs & Hw)]];
      unfold configured; rewrite Hs, Hw; [exact Hc|].
    cbn. apply bool_decide_eq_true_2. rewrite lookup_insert_eq. eauto. }
  assert (He1 : enabled (self st1) = enabled (self st)) by (rewrite Hj; reflexivity).
  assert (Hq1 : queue (self st1) = queue (self st)) by (rewrite Hj; reflexivity).
  rewrite He1. destruct (enabled (self st)) eqn:He.
  - destruct (schedule st1) as [[b'|e] st2] eqn:Hs; [|discriminate].
    assert (Ht1 : truthy_str (job_id (self st1)) = false) by (rewrite Hj; reflexivity).
    destruct (schedule_schedulable_cases _ _ _ Ht1 He1 Hs)
      as [(_ & _ & _ & _ & _ & Hs2 & Hw2) | (e & [=] & _)].
    intros Hsv. destruct (super_save_cases _ _ _ Hsv) as [([=] & _) | (pk & _ & Hs3 & Hw3)].
    exists pk. unfold configured. unfold jobs_of at 1.
    rewrite Hs3, Hw3, Hs2, Hw2, Hq1, Hn, Hj. cbn. rewrite ?Hn.
    split; [reflexivity|]. split; [|split; [reflexivity|]].
    + apply bool_decide_eq_true_2. rewrite lookup_insert_eq. eauto.
    + rewrite lookup_insert_eq. cbn. rewrite Hjobs. reflexivity.
  - intros Hsv. destruct (super_save_cases _ _ _ Hsv) as [([=] & _) | (pk & _ & Hs3 & Hw3)].
    exists pk. unfold configured in *. rewrite Hs3, Hw3, Hj. cbn.
    split; [reflexivity|]. split; [|split; [exact Hn | exact Hjobs]].
    rewrite Hj in Hc1. exact Hc1.
Qed.

Lemma schedule_not_schedulable (st : St) :
  truthy_str (job_id (self st)) = true \/ enabled (self st) = false ->
  schedule st = (Ok false, st).
Proof.
  intros H. unfold schedule. unfold bind at 1. unfold get_self at 1.
  assert (E : negb (truthy_str (job_id (self st))) && enabled (self st) = false)
    by (destruct H as [-> | ->]; [reflexivity | apply andb_false_r]).
  destruct (cls (self st));
    unfold BaseJob_schedule, RepeatableJob_schedule, CronJob_schedule;
    unfold bind at 1; rewrite is_schedulable_run, E; reflexivity.
Qed.

(** After a [save] that completes, [is_scheduled] agrees with [enabled]
    whenever the backend answers: an enabled record is scheduled, a
    disabled one is not. *)
Theorem save_then_is_scheduled (st st' : St) :
  save st = (Ok tt, st') ->
  up st' = true ->
  fst (is_scheduled st') = Ok (enabled (self st')).
Proof.
  intros H Hu. destruct (save_ok_state _ _ H) as (pk & Hs & Hc & _ & Hjobs).
  destruct (is_scheduled_cases st') as (_ & _ & ->). rewrite Hc, Hu. f_equal.
  unfold live. rewrite Hs. cbn [job_id queue enabled with_id with_job_id].
  destruct (enabled (self st)); [|reflexivity].
  apply bool_decide_eq_true_2. rewrite Hjobs. rewrite lookup_insert_eq. eauto.
Qed.

Lemma save_then_is_scheduled_witness :
  fst (is_scheduled (snd (save (registered_state false [])))) =
    Ok (enabled (self (snd (save (registered_state false []))))).
Proof.
  apply (save_then_is_scheduled (registered_state false [])).
  - vm_compute. reflexivity.
  - vm_compute. reflexivity.
Defined.

(** After a [save] that completes, a direct call of [schedule] declines:
    it returns [False], makes no backend call and leaves the record as it
    is, so the registration of an enabled record is not doubled. *)
Theorem save_then_schedule_declines (st st' : St) :
  save st = (Ok tt, st') ->
  schedule st' = (Ok false, st').
Proof.
  intros H. destruct (save_ok_state _ _ H) as (pk & Hs & _).
  apply schedule_not_schedulable. rewrite Hs. cbn [job_id enabled with_id with_job_id].
  destruct (enabled (self st)); [left; reflexivity | right; reflexivity].
Qed.

Lemma save_then_schedule_declines_witness :
  schedule (snd (save (registered_state true []))) =
    (Ok false, snd (save (registered_state true []))).
Proof.
  apply (save_then_schedule_declines (registered_state true [])).
  vm_compute. reflexivity.
Defined.

(** Enabling, disabling and enabling again, with a [save] after each: the
    first save registers the record under a job id; the second leaves it
    without a job id and the scheduler without that job; the third
    registers it under a different job id, and the first job stays gone. *)
Theorem toggle_round_trip (st st1 st2 st3 : St) :
  enabled (self st) = true ->
  save st = (Ok tt, st1) ->
  save (edit (set_field (SetEnabled false)) st1) = (Ok tt, st2) ->
  save (edit (set_field (SetEnabled true)) st2) = (Ok tt, st3) ->
  exists h1 h3,
    job_id (self st1) = Some h1 /\
    is_Some (jobs_of (queue (self st)) (world st1) !! h1) /\
    job_id (self st2) = None /\
    jobs_of (queue (self st)) (world st2) !! h1 = None /\
    job_id (self st3) = Some h3 /\
    h3 <> h1 /\
    is_Some (jobs_of (queue (self st)) (world st3) !! h3) /\
    jobs_of (queue (self st)) (world st3) !! h1 = None.
Proof.
  intros He H1 H2 H3.
  destruct (save_ok_state _ _ H1) as (pk1 & Hs1 & _ & Hu1 & Hj1).
  destruct (save_ok_state _ _ H2) as (pk2 & Hs2 & _ & Hu2 & Hj2).
  destruct (save_ok_state _ _ H3) as (pk3 & Hs3 & _ & Hu3 & Hj3).
  rewrite He in *.
  cbn -[jobs_of new_job_id] in Hs2, Hu2, Hj2, Hs3, Hu3, Hj3.
  rewrite Hs1 in Hs2, Hj2. cbn -[jobs_of new_job_id] in Hs2, Hj2.
  rewrite Hs2 in Hs3, Hj3. cbn -[jobs_of new_job_id] in Hs3, Hj3.
  assert (Hne : new_job_id (uuids (world st2)) <> new_job_id (uuids (world st))).
  { rewrite Hu2, Hu1. intros E%new_job_id_inj. lia. }
  exists (new_job_id (uuids (world st))), (new_job_id (uuids (world st2))).
  rewrite Hs1, Hs2, Hs3, Hj3, Hj2, Hj1. cbn -[jobs_of new_job_id].
  split; [reflexivity|]. split; [rewrite lookup_insert_eq; eauto|].
  split; [reflexivity|]. split; [apply lookup_delete_eq|].
  split; [reflexivity|]. split; [exact Hne|].
  split; [rewrite lookup_insert_eq; eauto|].
  rewrite lookup_insert_ne by exact Hne. apply lookup_delete_eq.
Qed.

Lemma toggle_round_trip_witness :
  exists h1 h3,
    job_id (self (snd (save (sample_state true None None ∅ [])))) = Some h1 /\
    is_Some (jobs_of (queue (self (sample_state true None None ∅ [])))
               (world (snd (save (sample_state true None None ∅ [])))) !! h1) /\
    job_id (self (snd (save (edit (set_field (SetEnabled false))
                               (snd (save (sample_state true None None ∅ []))))))) = None /\
    jobs_of (queue (self (sample_state true None None ∅ [])))
      (world (snd (save (edit (set_field (SetEnabled false))
                           (snd (save (sample_state true None None ∅ []))))))) !! h1 = None /\
    job_id (self (snd (save (edit (set_field (SetEnabled true))
        (snd (save (edit (set_field (SetEnabled false))
                      (snd (save (sample_state true None None ∅ [])))))))))) = Some h3 /\
    h3 <> h1 /\
    is_Some (jobs_of (queue (self (sample_state true None None ∅ [])))
      (world (snd (save (edit (set_field (SetEnabled true))
        (snd (save (edit (set_field (SetEnabled false))
                      (snd (save (sample_state true None None ∅ [])))))))))) !! h3) /\
    jobs_of (queue (self (sample_state true None None ∅ [])))
      (world (snd (save (edit (set_field (SetEnabled true))
        (snd (save (edit (set_field (SetEnabled false))
                      (snd (save (sample_state true None None ∅ [])))))))))) !! h1 = None.
Proof.
  apply (toggle_round_trip (sample_state true None None ∅ [])).
  - reflexivity.
  - vm_compute. reflexivity.
  - vm_compute. reflexivity.
  - vm_compute. reflexivity.
Defined.


